(** * PyTorrent: the torrent session manager of [torrent_engine.py]

    A shallow embedding of the class [TorrentEngine] and proofs about it.

    - Python values read from the state files are JSON documents ([json]).
    - Python dicts are association lists in insertion order ([dict_set],
      [dict_pop], [dict_get]); a dict has no key twice.
    - Python floats are IEEE-754 binary64 numbers, taken from the Standard
      Library's executable specification [SpecFloat] (precision 53,
      exponent bound 1024), in canonical form as [SFcompare] expects.
    - A method runs on the object and returns a value or raises; the object
      afterwards is kept in both cases ([method]).
    - [libtorrent] is an external collaborator: it is an interface
      ([Lt.engine]) over an abstract world and abstract handles.
    - The two state files are a small file system ([disk]); serialisation
      with [json.dump] followed by [json.load] is taken to give the document
      back, so a readable file holds a document.

    Part I holds the definitions: the embedding of the source, the
    derivations in the words of the specification, and a scripted engine
    with closed states for examples.  Part II holds the theorems. *)

From Stdlib Require Import ZArith List String Ascii Bool Lia.
From Stdlib Require Import SpecFloat DecimalString DecimalZ DecimalPos DecimalN.
Import ListNotations.
Set Warnings "-register-all".
Local Open Scope string_scope.
Local Open Scope Z_scope.

(* ****************************************************************** *)
(** * Part I: definitions *)

(* ================================================================== *)
(** * Python preliminaries *)

Module Py.

(** Exceptions the code can meet. *)
Inductive exn : Type :=
  | RuntimeError | AttributeError | TypeError | OverflowError | ValueError
  | OSError | OtherError (msg : string).

(** Result of running Python code: a value or a raised exception. *)
Inductive res (A : Type) : Type :=
  | Ok (a : A)
  | Raise (e : exn).
Arguments Ok {A} a.
Arguments Raise {A} e.

Definition is_ok {A} (r : res A) : bool :=
  match r with Ok _ => true | Raise _ => false end.

(** ** Floats (binary64) *)

Definition float := spec_float.
Definition prec : Z := 53.
Definition emax : Z := 1024.

Definition f_zero : float := S754_zero false.
(** [1.0], [51200.0 = 50 * 1024] in canonical form. *)
Definition f_one : float := S754_finite false 4503599627370496 (-52).
Definition f_51200 : float := S754_finite false 7036874417766400 (-37).

Definition flt (x y : float) : bool := SFltb x y.
Definition feq (x y : float) : bool := SFeqb x y.

Definition is_finite (f : float) : bool :=
  match f with
  | S754_zero _ | S754_finite _ _ _ => true
  | S754_infinity _ | S754_nan => false
  end.

(** [float(n)] for an int [n]: correctly rounded, [OverflowError] beyond the
    largest double. *)
Definition float_of_int (n : Z) : res float :=
  match binary_normalize prec emax n 0 false with
  | S754_infinity _ => Raise OverflowError
  | f => Ok f
  end.

(** [int(x)] for a float [x]: truncation toward zero; infinities and NaN
    raise. *)
Definition int_of_float (f : float) : res Z :=
  match f with
  | S754_zero _ => Ok 0
  | S754_infinity _ => Raise OverflowError
  | S754_nan => Raise ValueError
  | S754_finite s m e => Ok (cond_Zopp s (Z.shiftl (Zpos m) e))
  end.

(** [n / x] for an int [n] and a float [x <> 0]: the int is converted, then
    the doubles are divided. *)
Definition int_truediv_float (n : Z) (x : float) : res float :=
  match float_of_int n with
  | Raise e => Raise e
  | Ok a => Ok (SFdiv prec emax a x)
  end.

(** The mathematical floor of a finite float: the value is
    [(-1)^s * m * 2^e]. *)
Definition float_floor (f : float) : Z :=
  match f with
  | S754_finite s m e => Z.shiftl (cond_Zopp s (Zpos m)) e
  | _ => 0
  end.

(** The sign bit is clear and the float is a number. *)
Definition sign_clear (f : float) : Prop :=
  match f with
  | S754_zero s | S754_infinity s | S754_finite s _ _ => s = false
  | S754_nan => False
  end.

(** ** Dicts: association lists in insertion order *)

Section Dict.
Context {V : Type}.

Definition dict := list (string * V).

Fixpoint dict_get (k : string) (d : dict) : option V :=
  match d with
  | [] => None
  | (k', v) :: d' => if String.eqb k' k then Some v else dict_get k d'
  end.

(** [d[k] = v]: an existing key keeps its position, a new key goes last. *)
Fixpoint dict_set (k : string) (v : V) (d : dict) : dict :=
  match d with
  | [] => [(k, v)]
  | (k', v') :: d' =>
      if String.eqb k' k then (k', v) :: d' else (k', v') :: dict_set k v d'
  end.

(** [d.pop(k, None)], the dict afterwards. *)
Definition dict_pop (k : string) (d : dict) : dict :=
  filter (fun kv => negb (String.eqb (fst kv) k)) d.

Definition keys (d : dict) : list string := map fst d.
End Dict.
Arguments dict V : clear implicits.

(** ** JSON documents, as [json.load] returns them *)

Inductive json : Type :=
  | JNull
  | JBool (b : bool)
  | JInt (n : Z)
  | JFloat (f : float)
  | JStr (s : string)
  | JArr (l : list json)
  | JObj (kv : list (string * json)).

(** Truth value of an object, as [not x] tests it. *)
Definition truthy (j : json) : bool :=
  match j with
  | JNull => false
  | JBool b => b
  | JInt n => negb (n =? 0)
  | JFloat (S754_zero _) => false
  | JFloat _ => true
  | JStr s => negb (String.eqb s "")
  | JArr l => match l with [] => false | _ => true end
  | JObj kv => match kv with [] => false | _ => true end
  end.

Definition is_None (j : json) : bool :=
  match j with JNull => true | _ => false end.

(** [x.get(k, default)]: only dicts have [get]. *)
Definition get (x : json) (k : string) (default : json) : res json :=
  match x with
  | JObj kv => Ok (match dict_get k kv with Some v => v | None => default end)
  | _ => Raise AttributeError
  end.

(** The items a [for] loop draws from [x]. *)
Definition iter (x : json) : res (list json) :=
  match x with
  | JArr l => Ok l
  | JStr s => Ok (map (fun c => JStr (String c "")) (list_ascii_of_string s))
  | JObj kv => Ok (map (fun p => JStr (fst p)) kv)
  | _ => Raise TypeError
  end.

(** [x == s] for a string literal [s]. *)
Definition eq_str (x : json) (s : string) : bool :=
  match x with JStr s' => String.eqb s' s | _ => false end.

End Py.
Import Py.

(* ================================================================== *)
(** * The libtorrent boundary *)

Module Lt.

(** [lt.torrent_info]: the name and the file storage (path and size of each
    file, in index order). *)
Record torrent_info : Type := {
  ti_name : string;
  ti_files : list (string * Z)
}.

Definition num_files (ti : torrent_info) : nat := List.length (ti_files ti).
Definition file_size (ti : torrent_info) (idx : nat) : Z :=
  snd (nth idx (ti_files ti) ("", 0)).

(** [lt.torrent_status].  [state] is always there; the other attributes are
    read with [getattr(s, name, default)] and may be missing. *)
Record torrent_status : Type := {
  state : Z;
  total_done : option Z;
  total_wanted : option Z;
  progress : option float;
  download_rate : option float;
  upload_rate : option float;
  name : option string;
  paused : option bool;
  is_seeding : option bool;
  num_peers : option Z
}.

(** The dict handed to [session.add_torrent]. *)
Inductive add_params : Type :=
  | params_ti (ti : torrent_info) (save_path : string)
              (file_priorities : option (list Z))
  | params_url (url : json) (save_path : string).

(** The engine: a session in some world [W] handing out handles [H].  Calls
    that change the session return the world afterwards. *)
Record engine (W H : Type) : Type := {
  (** [lt.torrent_info(path)] *)
  load_torrent_info : W -> json -> res torrent_info;
  (** [session.add_torrent(params)] *)
  add_torrent : W -> add_params -> W * res H;
  (** [str(handle.info_hash())] *)
  info_hash : W -> H -> res string;
  (** [str(id(handle))] *)
  object_id : H -> string;
  (** [handle.status()] *)
  status : W -> H -> res torrent_status;
  (** [handle.get_torrent_info()]; [None] when it raises or returns [None] *)
  get_torrent_info : W -> H -> option torrent_info;
  (** [handle.file_priorities()]; [None] when it raises *)
  file_priorities : W -> H -> option (list Z);
  (** [handle.pause()], [handle.resume()]: the world afterwards, whether
      or not the call raised *)
  pause : W -> H -> W;
  resume : W -> H -> W;
  (** [session.remove_torrent(handle[, lt.options_t.delete_files])] *)
  remove_torrent : W -> H -> bool -> W * res unit;
  (** [hasattr(lt, "options_t")] *)
  has_options_t : bool
}.
Arguments load_torrent_info {W H}.
Arguments add_torrent {W H}.
Arguments info_hash {W H}.
Arguments object_id {W H}.
Arguments status {W H}.
Arguments get_torrent_info {W H}.
Arguments file_priorities {W H}.
Arguments pause {W H}.
Arguments resume {W H}.
Arguments remove_torrent {W H}.
Arguments has_options_t {W H}.

End Lt.

(* ================================================================== *)
(** * The state files *)

Module Fs.

Inductive file : Type :=
  | Absent                (* no such file *)
  | Unreadable            (* exists, [open] fails *)
  | Malformed             (* exists, [json.load] fails *)
  | Doc (j : json).       (* exists and parses to [j] *)

(** What happens at the next write of the current-location file. *)
Inductive write_outcome : Type :=
  | WriteOk               (* the document is written *)
  | WriteDenied           (* [open] fails, the file is untouched *)
  | WriteTorn.            (* the write fails half-way *)

Record disk : Type := {
  state_file : file;            (* at [_state_path] *)
  legacy_file : file;           (* at [_legacy_state_path] *)
  state_write : write_outcome;
  legacy_removable : bool       (* does [os.remove] succeed *)
}.

Definition exists_ (f : file) : bool :=
  match f with Absent => false | _ => true end.

(** [with open(path, "r") as f: json.load(f)] *)
Definition read_json (f : file) : res json :=
  match f with
  | Doc j => Ok j
  | Malformed => Raise ValueError
  | Absent | Unreadable => Raise OSError
  end.

(** [with open(_state_path, "w") as f: json.dump(data, f, ...)] *)
Definition write_state (data : json) (d : disk) : res unit * disk :=
  match state_write d with
  | WriteOk =>
      (Ok tt, {| state_file := Doc data; legacy_file := legacy_file d;
                 state_write := state_write d;
                 legacy_removable := legacy_removable d |})
  | WriteDenied => (Raise OSError, d)
  | WriteTorn =>
      (Raise OSError, {| state_file := Malformed; legacy_file := legacy_file d;
                         state_write := state_write d;
                         legacy_removable := legacy_removable d |})
  end.

(** [os.remove(_legacy_state_path)] *)
Definition remove_legacy (d : disk) : res unit * disk :=
  if legacy_removable d then
    (Ok tt, {| state_file := state_file d; legacy_file := Absent;
               state_write := state_write d;
               legacy_removable := legacy_removable d |})
  else (Raise OSError, d).

End Fs.
Import Fs.

(* ================================================================== *)
(** * Deriving a status record (body of the loop of [get_status_list]) *)

(** One entry of the list [get_status_list] returns. *)
Record snapshot : Type := {
  snap_id : string;
  snap_name : string;
  snap_progress : float;
  snap_download_rate : float;
  snap_upload_rate : float;
  snap_state : string;
  snap_total_size : Z;
  snap_downloaded : Z;
  snap_num_peers : Z;
  snap_eta : Z;
  snap_is_paused : bool;
  snap_is_seeding : bool
}.

(** [getattr(s, attr, default)] *)
Definition getattr {A} (attr : option A) (default : A) : A :=
  match attr with Some a => a | None => default end.

Definition state_names : list string :=
  [ "Queued"; "Checking"; "Downloading metadata"; "Downloading";
    "Finished"; "Seeding"; "Allocating"; "Checking fastresume" ].

(** Lines 158-161. *)
Definition raw_state_name (st : Z) : string :=
  if (0 <=? st) && (st <? Z.of_nat (List.length state_names))
  then nth (Z.to_nat st) state_names ""
  else "Unknown".

(** Lines 172-175: the loop over the file indices. *)
Definition size_sum (priorities : list Z) (ti : Lt.torrent_info) : Z :=
  fold_left
    (fun acc idx =>
       if nth idx priorities 0 >? 0 then acc + Lt.file_size ti idx else acc)
    (seq 0 (Lt.num_files ti)) 0.

(** Lines 163-179.  [info] is the outcome of [handle.get_torrent_info()] and
    [prios] that of [handle.file_priorities()]. *)
Definition effective_total_size
    (total_wanted : Z) (info : option Lt.torrent_info)
    (prios : option (list Z)) : Z :=
  match info with
  | None => total_wanted
  | Some ti =>
      let priorities := match prios with Some p => p | None => [] end in
      if match priorities with [] => false | _ => true end
         && Nat.eqb (List.length priorities) (Lt.num_files ti)
      then
        let sum := size_sum priorities ti in
        if sum >? 0 then sum else total_wanted
      else total_wanted
  end.

(** Lines 183-187. *)
Definition eta_sec (total_size downloaded : Z) (download_rate : float)
  : res Z :=
  let remaining := Z.max 0 (total_size - downloaded) in
  if flt f_zero download_rate && (remaining >? 0) then
    match int_truediv_float remaining download_rate with
    | Raise e => Raise e
    | Ok q => int_of_float q
    end
  else Ok (-1).

(** Lines 197-204. *)
Definition display_state (state : string) (is_paused is_seeding : bool)
    (progress download_rate : float) : string :=
  if is_paused then "Paused"
  else if is_seeding then "Seeding"
  else if flt f_zero progress && flt progress f_one
          && flt download_rate f_51200
       then "Resuming"
       else state.

(** Lines 188-194 and 209. *)
Definition display_name (name : string) (info : option Lt.torrent_info)
  : string :=
  let name :=
    if String.eqb name "" then
      match info with Some ti => Lt.ti_name ti | None => "" end
    else name in
  if String.eqb name "" then "(metadata...)" else name.

(** Lines 148-221: the record built for one handle whose status is [s]. *)
Definition reconcile (tid : string) (s : Lt.torrent_status)
    (info : option Lt.torrent_info) (prios : option (list Z))
  : res snapshot :=
  let state := raw_state_name (Lt.state s) in
  let downloaded := getattr (Lt.total_done s) 0 in
  let total_size :=
    effective_total_size (getattr (Lt.total_wanted s) 0) info prios in
  let progress := getattr (Lt.progress s) f_zero in
  let download_rate := getattr (Lt.download_rate s) f_zero in
  let upload_rate := getattr (Lt.upload_rate s) f_zero in
  match eta_sec total_size downloaded download_rate with
  | Raise e => Raise e
  | Ok eta =>
      let is_paused := getattr (Lt.paused s) false in
      let is_seeding := getattr (Lt.is_seeding s) false in
      Ok {| snap_id := tid;
            snap_name := display_name (getattr (Lt.name s) "") info;
            snap_progress := progress;
            snap_download_rate := download_rate;
            snap_upload_rate := upload_rate;
            snap_state :=
              display_state state is_paused is_seeding progress download_rate;
            snap_total_size := total_size;
            snap_downloaded := downloaded;
            snap_num_peers := getattr (Lt.num_peers s) 0;
            snap_eta := eta;
            snap_is_paused := is_paused;
            snap_is_seeding := is_seeding |}
  end.

(* ================================================================== *)
(** * The class [TorrentEngine] *)

(** A value of [_meta]: the dict [{"kind": ..., "source": ...}]. *)
Record meta : Type := { kind : string; source : json }.

Definition meta_items (m : meta) : list (string * json) :=
  [("kind", JStr (kind m)); ("source", source m)].

(** The object and the part of the environment it acts on: [_session] is
    the state of the libtorrent session, [files] the two state files. *)
Record TorrentEngine (W H : Type) : Type := {
  download_path : string;
  _session : W;
  _torrents : dict H;
  _meta : dict meta;
  files : disk
}.
Arguments download_path {W H}.
Arguments _session {W H}.
Arguments _torrents {W H}.
Arguments _meta {W H}.
Arguments files {W H}.

(** The document [_save_state] writes for a descriptor dict. *)
Definition state_doc (m : dict meta) : json :=
  JObj [("torrents",
         JArr (map (fun p => JObj (("id", JStr (fst p)) :: meta_items (snd p)))
                   m))].

Section Manager.
Context {W H : Type}.
Variable lt : Lt.engine W H.

Local Abbreviation self_t := (TorrentEngine W H).

(** A method: runs on the object, returns or raises, leaves the object. *)
Definition method (A : Type) : Type := self_t -> res A * self_t.

Definition with_session (w : W) (self : self_t) : self_t :=
  {| download_path := download_path self; _session := w;
     _torrents := _torrents self; _meta := _meta self;
     files := files self |}.

Definition with_files (d : disk) (self : self_t) : self_t :=
  {| download_path := download_path self; _session := _session self;
     _torrents := _torrents self; _meta := _meta self; files := d |}.

Definition with_maps (t : dict H) (m : dict meta) (self : self_t) : self_t :=
  {| download_path := download_path self; _session := _session self;
     _torrents := t; _meta := m; files := files self |}.

(** Lines 32-44.  The whole body is inside [try ... except Exception]. *)
Definition _save_state : method unit := fun self =>
  (Ok tt, with_files (snd (write_state (state_doc (_meta self)) (files self)))
                     self).

(** Lines 86-91. *)
Definition _get_torrent_id (w : W) (handle : H) : string :=
  match Lt.info_hash lt w handle with
  | Ok s => s
  | Raise _ => Lt.object_id lt handle
  end.

(** Lines 101-109 and 116-124: the common tail of the two add methods. *)
Definition track (params : Lt.add_params) (m : meta) : method string :=
  fun self =>
    match Lt.add_torrent lt (_session self) params with
    | (w, Raise e) => (Raise e, with_session w self)
    | (w, Ok handle) =>
        let tid := _get_torrent_id w handle in
        let self := with_session w self in
        let self := with_maps (dict_set tid handle (_torrents self))
                              (dict_set tid m (_meta self)) self in
        (Ok tid, snd (_save_state self))
    end.

(** Lines 93-109. *)
Definition add_torrent_file (torrent_path : json)
    (file_priorities : option (list Z)) : method string := fun self =>
  match Lt.load_torrent_info lt (_session self) torrent_path with
  | Raise e => (Raise e, self)
  | Ok info =>
      track (Lt.params_ti info (download_path self) file_priorities)
            {| kind := "file"; source := torrent_path |} self
  end.

(** Lines 111-124. *)
Definition add_magnet (magnet_uri : json) : method string := fun self =>
  track (Lt.params_url magnet_uri (download_path self))
        {| kind := "magnet"; source := magnet_uri |} self.

(** Lines 49-54. *)
Definition read_current (d : disk) : json :=
  if exists_ (state_file d) then
    match read_json (state_file d) with Ok j => j | Raise _ => JNull end
  else JNull.

(** Lines 57-67, the body of the [if]. *)
Definition migrate (d : disk) : json * disk :=
  match read_json (legacy_file d) with
  | Raise _ => (JNull, d)
  | Ok data =>
      match write_state data d with
      | (Raise _, d') => (JNull, d')
      | (Ok _, d') => (data, snd (remove_legacy d'))
      end
  end.

(** Lines 73-84. *)
Fixpoint load_items (items : list json) : method unit := fun self =>
  match items with
  | [] => (Ok tt, self)
  | item :: rest =>
      match get item "kind" JNull with
      | Raise e => (Raise e, self)
      | Ok kind_ =>
          match get item "source" JNull with
          | Raise e => (Raise e, self)
          | Ok source_ =>
              if negb (truthy kind_) || negb (truthy source_) then
                load_items rest self
              else if eq_str kind_ "file" then
                load_items rest (snd (add_torrent_file source_ None self))
              else if eq_str kind_ "magnet" then
                load_items rest (snd (add_magnet source_ self))
              else load_items rest self
          end
      end
  end.

(** Lines 46-84. *)
Definition _load_state : method unit := fun self =>
  let data := read_current (files self) in
  let '(data, d) :=
    if is_None data && exists_ (legacy_file (files self))
    then migrate (files self)
    else (data, files self) in
  let self := with_files d self in
  if negb (truthy data) then (Ok tt, self)
  else
    match get data "torrents" (JArr []) with
    | Raise e => (Raise e, self)
    | Ok torrents =>
        match iter torrents with
        | Raise e => (Raise e, self)
        | Ok items => load_items items self
        end
    end.

(** Lines 9-30, from the point where the session exists. *)
Definition __init__ (path : string) (w : W) (d : disk) : res unit * self_t :=
  _load_state {| download_path := path; _session := w;
                 _torrents := []; _meta := []; files := d |}.

(** Lines 142-221: the first loop, over [list(self._torrents.items())].
    Gives the result list and [to_remove]. *)
Fixpoint status_loop (w : W) (items : list (string * H))
  : res (list snapshot * list string) :=
  match items with
  | [] => Ok ([], [])
  | (tid, handle) :: rest =>
      match Lt.status lt w handle with
      | Raise RuntimeError =>
          match status_loop w rest with
          | Ok (result, to_remove) => Ok (result, tid :: to_remove)
          | Raise e => Raise e
          end
      | Raise e => Raise e
      | Ok s =>
          match reconcile tid s (Lt.get_torrent_info lt w handle)
                          (Lt.file_priorities lt w handle) with
          | Raise e => Raise e
          | Ok snap =>
              match status_loop w rest with
              | Ok (result, to_remove) => Ok (snap :: result, to_remove)
              | Raise e => Raise e
              end
          end
      end
  end.

(** Lines 139-224. *)
Definition get_status_list : method (list snapshot) := fun self =>
  match status_loop (_session self) (_torrents self) with
  | Raise e => (Raise e, self)
  | Ok (result, to_remove) =>
      (Ok result,
       with_maps (fold_left (fun t tid => dict_pop tid t) to_remove
                            (_torrents self))
                 (_meta self) self)
  end.

(** Lines 226-233. *)
Definition pause (torrent_id : string) : method unit := fun self =>
  let self :=
    match dict_get torrent_id (_torrents self) with
    | Some handle => with_session (Lt.pause lt (_session self) handle) self
    | None => self
    end in
  _save_state self.

(** Lines 235-241. *)
Definition resume (torrent_id : string) : method unit := fun self =>
  match dict_get torrent_id (_torrents self) with
  | Some handle =>
      (Ok tt, with_session (Lt.resume lt (_session self) handle) self)
  | None => (Ok tt, self)
  end.

(** Lines 243-257. *)
Definition remove (torrent_id : string) (delete_files : bool)
  : method unit := fun self =>
  let handle := dict_get torrent_id (_torrents self) in
  let self := with_maps (dict_pop torrent_id (_torrents self))
                        (dict_pop torrent_id (_meta self)) self in
  match handle with
  | None => (Ok tt, self)
  | Some handle =>
      match Lt.remove_torrent lt (_session self) handle
              (delete_files && Lt.has_options_t lt) with
      | (w, Ok _) => (Ok tt, with_session w self)
      | (w, Raise _) =>
          (Ok tt,
           with_session (fst (Lt.remove_torrent lt w handle false)) self)
      end
  end.

(** Lines 259-266. *)
Definition close : method unit := fun self =>
  let w := fold_left (fun w handle => Lt.pause lt w handle)
                     (map snd (_torrents self)) (_session self) in
  _save_state (with_maps [] (_meta self) (with_session w self)).

End Manager.

(* ================================================================== *)
(** * The derivations in the words of the specification *)

(** The eight raw states of the engine, in the order of their numbers. *)
Inductive raw_state : Type :=
  | Queued | Checking | DownloadingMetadata | Downloading
  | Finished | Seeding | Allocating | CheckingFastResume.

Definition raw_state_of (n : Z) : option raw_state :=
  match n with
  | 0 => Some Queued
  | 1 => Some Checking
  | 2 => Some DownloadingMetadata
  | 3 => Some Downloading
  | 4 => Some Finished
  | 5 => Some Seeding
  | 6 => Some Allocating
  | 7 => Some CheckingFastResume
  | _ => None
  end.

Definition raw_state_label (r : raw_state) : string :=
  match r with
  | Queued => "Queued"
  | Checking => "Checking"
  | DownloadingMetadata => "Downloading metadata"
  | Downloading => "Downloading"
  | Finished => "Finished"
  | Seeding => "Seeding"
  | Allocating => "Allocating"
  | CheckingFastResume => "Checking fastresume"
  end.

(** Rules in precedence order: the first one whose condition holds gives
    the label. *)
Fixpoint first_match (rules : list (bool * string)) (otherwise : string)
  : string :=
  match rules with
  | [] => otherwise
  | (cond, label) :: rest => if cond then label else first_match rest otherwise
  end.

(** [0 < progress < 1] and [download_rate < 50 KiB/s]. *)
Definition stalled (progress download_rate : float) : bool :=
  flt f_zero progress && flt progress f_one && flt download_rate f_51200.

Definition display_state_spec (raw : Z) (is_paused is_seeding : bool)
    (progress download_rate : float) : string :=
  first_match
    [ (is_paused, "Paused");
      (is_seeding, "Seeding");
      (stalled progress download_rate, "Resuming") ]
    (match raw_state_of raw with
     | Some r => raw_state_label r
     | None => "Unknown"
     end).

Definition sumZ (l : list Z) : Z := fold_right Z.add 0 l.

(** The sum of the sizes of the files whose priority is greater than zero. *)
Definition selected_size (priorities : list Z) (ti : Lt.torrent_info) : Z :=
  sumZ (map (fun pf => snd (snd pf))
            (filter (fun pf => fst pf >? 0)
                    (combine priorities (Lt.ti_files ti)))).

Definition effective_total_size_spec (total_wanted : Z)
    (info : option Lt.torrent_info) (prios : option (list Z)) : Z :=
  match info, prios with
  | Some ti, Some priorities =>
      if Nat.eqb (List.length priorities) (Lt.num_files ti)
         && (selected_size priorities ti >? 0)
      then selected_size priorities ti
      else total_wanted
  | _, _ => total_wanted
  end.

(* ================================================================== *)
(** * A scripted engine for closed examples *)

Module Stub.

(** The world is the list of [.torrent] files present on disk; a handle is
    the text of the source it was added from, and its info-hash is that
    text behind ["ih:"].  Every torrent file holds the same two files. *)
Definition world : Type := list string.
Definition handle : Type := string.

Definition stale : string := "magnet:?xt=urn:btih:dead".

Definition info_of (path : string) : Lt.torrent_info :=
  {| Lt.ti_name := path; Lt.ti_files := [("a.bin", 700); ("b.bin", 300)] |}.

Definition load_torrent_info (w : world) (path : json)
  : res Lt.torrent_info :=
  match path with
  | JStr p =>
      if existsb (String.eqb p) w then Ok (info_of p) else Raise RuntimeError
  | _ => Raise TypeError
  end.

Definition add_torrent (w : world) (params : Lt.add_params)
  : world * res handle :=
  match params with
  | Lt.params_ti ti _ _ => (w, Ok (Lt.ti_name ti))
  | Lt.params_url (JStr u) _ => (w, Ok u)
  | Lt.params_url _ _ => (w, Raise TypeError)
  end.

Definition f_042 : float := S754_finite false 7566047373982433 (-54).
Definition f_10 : float := S754_finite false 5629499534213120 (-49).
Definition f_10000 : float := S754_finite false 5497558138880000 (-39).

(** [progress=0.42], [download_rate=10_000], raw state 3. *)
Definition slow_download : Lt.torrent_status :=
  {| Lt.state := 3;
     Lt.total_done := Some 420;
     Lt.total_wanted := Some 1000;
     Lt.progress := Some f_042;
     Lt.download_rate := Some f_10000;
     Lt.upload_rate := Some f_zero;
     Lt.name := Some "demo";
     Lt.paused := Some false;
     Lt.is_seeding := Some false;
     Lt.num_peers := Some 3 |}.

Definition status (w : world) (h : handle) : res Lt.torrent_status :=
  if String.eqb h stale then Raise RuntimeError else Ok slow_download.

Definition is_magnet (h : handle) : bool := String.prefix "magnet:" h.

Definition engine : Lt.engine world handle :=
  {| Lt.load_torrent_info := load_torrent_info;
     Lt.add_torrent := add_torrent;
     Lt.info_hash := fun _ h => Ok ("ih:" ++ h)%string;
     Lt.object_id := fun h => ("0x" ++ h)%string;
     Lt.status := status;
     Lt.get_torrent_info :=
       fun _ h => if is_magnet h then None else Some (info_of h);
     Lt.file_priorities :=
       fun _ h => if is_magnet h then None else Some [1; 0];
     Lt.pause := fun w _ => w;
     Lt.resume := fun w _ => w;
     Lt.remove_torrent := fun w _ _ => (w, Ok tt);
     Lt.has_options_t := true |}.

Definition empty_disk : disk :=
  {| state_file := Absent; legacy_file := Absent;
     state_write := WriteOk; legacy_removable := true |}.

Definition magnet_abc : string := "magnet:?xt=urn:btih:abc".

End Stub.

(** Closed inputs for the status derivations. *)
Module Inputs.

(** A status that reports [progress == 1.0] while half of the wanted bytes
    are still missing and data arrives at 10 B/s. *)
Definition full_progress : Lt.torrent_status :=
  {| Lt.state := 3;
     Lt.total_done := Some 50;
     Lt.total_wanted := Some 100;
     Lt.progress := Some f_one;
     Lt.download_rate := Some Stub.f_10;
     Lt.upload_rate := Some f_zero;
     Lt.name := Some "demo";
     Lt.paused := Some false;
     Lt.is_seeding := Some false;
     Lt.num_peers := Some 1 |}.

End Inputs.

(* ================================================================== *)
(** * The object over time *)

Section Lifetime.
Context {W H : Type}.
Variable lt : Lt.engine W H.

(** The calls the window makes on the object (main.py). *)
Inductive call : Type :=
  | AddTorrentFile (torrent_path : json) (file_priorities : option (list Z))
  | AddMagnet (magnet_uri : json)
  | GetStatusList
  | Pause (torrent_id : string)
  | Resume (torrent_id : string)
  | Remove (torrent_id : string) (delete_files : bool)
  | Close.

(** The object after a call, whether it returned or raised. *)
Definition run (c : call) (self : TorrentEngine W H) : TorrentEngine W H :=
  match c with
  | AddTorrentFile p fp => snd (add_torrent_file lt p fp self)
  | AddMagnet u => snd (add_magnet lt u self)
  | GetStatusList => snd (get_status_list lt self)
  | Pause tid => snd (pause lt tid self)
  | Resume tid => snd (resume lt tid self)
  | Remove tid df => snd (remove lt tid df self)
  | Close => snd (close lt self)
  end.

(** The states an object can be in: after [__init__], after any call, and
    after the surroundings moved on their own (the engine made progress,
    the files changed, the window set another [download_path]). *)
Inductive reachable : TorrentEngine W H -> Prop :=
  | reach_init path w d : reachable (snd (__init__ lt path w d))
  | reach_call c self : reachable self -> reachable (run c self)
  | reach_env path w d self :
      reachable self ->
      reachable {| download_path := path; _session := w;
                   _torrents := _torrents self; _meta := _meta self;
                   files := d |}.

(** Every live id has a descriptor. *)
Definition live_subset_meta (self : TorrentEngine W H) : Prop :=
  forall tid, In tid (keys (_torrents self)) -> In tid (keys (_meta self)).

(** Both maps are dicts: no key twice. *)
Definition well_formed (self : TorrentEngine W H) : Prop :=
  NoDup (keys (_torrents self)) /\ NoDup (keys (_meta self)).

(** The engine reports the handle of this entry invalid. *)
Definition invalidated (w : W) (entry : string * H) : bool :=
  match Lt.status lt w (snd entry) with
  | Raise RuntimeError => true
  | _ => false
  end.

(** The status query of this entry either reports the handle invalid or
    gives a status from which a record is built. *)
Definition answers (w : W) (entry : string * H) : Prop :=
  Lt.status lt w (snd entry) = Raise RuntimeError \/
  exists s snap,
    Lt.status lt w (snd entry) = Ok s /\
    reconcile (fst entry) s (Lt.get_torrent_info lt w (snd entry))
              (Lt.file_priorities lt w (snd entry)) = Ok snap.

(** What one turn of the loop of [_load_state] does with a stored
    descriptor: the world afterwards and, when the descriptor is re-added,
    the id the engine assigns; no id when the loop skips the descriptor or
    the add raises. *)
Definition readd (path : string) (w : W) (m : meta) : W * option string :=
  if truthy (source m) then
    if String.eqb (kind m) "file" then
      match Lt.load_torrent_info lt w (source m) with
      | Ok info =>
          match Lt.add_torrent lt w (Lt.params_ti info path None) with
          | (w', Ok handle) => (w', Some (_get_torrent_id lt w' handle))
          | (w', Raise _) => (w', None)
          end
      | Raise _ => (w, None)
      end
    else if String.eqb (kind m) "magnet" then
      match Lt.add_torrent lt w (Lt.params_url (source m) path) with
      | (w', Ok handle) => (w', Some (_get_torrent_id lt w' handle))
      | (w', Raise _) => (w', None)
      end
    else (w, None)
  else (w, None).

(** The descriptor map after the loop ran over the stored descriptors [ds],
    starting from [acc]: a descriptor that is not re-added changes nothing,
    a re-added one is set at the id the engine assigns. *)
Fixpoint reloaded (path : string) (w : W) (acc ds : dict meta) : dict meta :=
  match ds with
  | [] => acc
  | (_, m) :: rest =>
      match readd path w m with
      | (w', Some tid) => reloaded path w' (dict_set tid m acc) rest
      | (w', None) => reloaded path w' acc rest
      end
  end.

(** The engine re-adds every descriptor, in order, under its stored id. *)
Fixpoint restores (path : string) (w : W) (ds : dict meta) : bool :=
  match ds with
  | [] => true
  | (tid, m) :: rest =>
      match readd path w m with
      | (w', Some tid') => String.eqb tid' tid && restores path w' rest
      | (_, None) => false
      end
  end.

(** A new object loading what an object with descriptors [m] saved. *)
Definition save_then_load (path : string) (w : W) (d : disk) (m : dict meta)
  : res unit * TorrentEngine W H :=
  let saved :=
    snd (_save_state {| download_path := path; _session := w;
                        _torrents := ([] : dict H); _meta := m;
                        files := d |}) in
  __init__ lt path w (files saved).

End Lifetime.

(** Closed states of an object over the scripted engine. *)
Module Scenario.

Definition path : string := "/downloads".
Definition id_abc : string := "ih:magnet:?xt=urn:btih:abc".
Definition id_stale : string := "ih:magnet:?xt=urn:btih:dead".
Definition id_a : string := "ih:/a.torrent".

(** A first start: no state file, no torrent file on disk. *)
Definition fresh : TorrentEngine Stub.world Stub.handle :=
  snd (__init__ Stub.engine path [] Stub.empty_disk).

(** One magnet added. *)
Definition tracked_abc : TorrentEngine Stub.world Stub.handle :=
  run Stub.engine (AddMagnet (JStr Stub.magnet_abc)) fresh.

(** A second magnet added, whose handle the engine reports invalid. *)
Definition with_stale : TorrentEngine Stub.world Stub.handle :=
  run Stub.engine (AddMagnet (JStr Stub.stale)) tracked_abc.

(** The torrent file /a.torrent added while it is on disk. *)
Definition added_file : TorrentEngine Stub.world Stub.handle :=
  run Stub.engine (AddTorrentFile (JStr "/a.torrent") None)
      (snd (__init__ Stub.engine path ["/a.torrent"] Stub.empty_disk)).

Definition two_descriptors : dict meta :=
  [ (id_a, {| kind := "file"; source := JStr "/a.torrent" |});
    (id_abc, {| kind := "magnet"; source := JStr Stub.magnet_abc |}) ].

(** Only the legacy file exists; it lists two descriptors. *)
Definition legacy_only : disk :=
  {| state_file := Absent; legacy_file := Doc (state_doc two_descriptors);
     state_write := WriteOk; legacy_removable := true |}.

(** The current-location file holds the JSON text [[1]]. *)
Definition list_document : disk :=
  {| state_file := Doc (JArr [JInt 1]); legacy_file := Absent;
     state_write := WriteOk; legacy_removable := true |}.

End Scenario.

(* ================================================================== *)
(** * Further code of [torrent_engine.py] and [main.py] *)

Definition file_path (ti : Lt.torrent_info) (idx : nat) : string :=
  fst (nth idx (Lt.ti_files ti) ("", 0)).

Section Inspect.
Context {W H : Type}.
Variable lt : Lt.engine W H.

(** Lines 129-136: the loop that appends one dict per file index. *)
Definition file_list (info : Lt.torrent_info) : list json :=
  fold_left
    (fun acc idx =>
       (acc ++ [JObj [("path", JStr (file_path info idx));
                      ("size", JInt (Lt.file_size info idx))]])%list)
    (seq 0 (Lt.num_files info)) [].

(** Lines 126-137. *)
Definition inspect_torrent_file (torrent_path : json)
  : TorrentEngine W H -> res json * TorrentEngine W H := fun self =>
  match Lt.load_torrent_info lt (_session self) torrent_path with
  | Raise e => (Raise e, self)
  | Ok info =>
      (Ok (JObj [("name", JStr (Lt.ti_name info));
                 ("files", JArr (file_list info))]), self)
  end.

End Inspect.

(** A document [_load_state] gets through: nothing to load, or an object
    whose ["torrents"] member can be iterated and yields objects only. *)
Definition is_object (j : json) : bool :=
  match j with JObj _ => true | _ => false end.

Definition loadable (data : json) : bool :=
  negb (truthy data) ||
  match get data "torrents" (JArr []) with
  | Ok torrents =>
      match iter torrents with
      | Ok items => forallb is_object items
      | Raise _ => false
      end
  | Raise _ => false
  end.

(** An item the loop of [_load_state] passes over: an object without a
    usable kind or source, or of a kind other than file and magnet. *)
Definition skipped (item : json) : bool :=
  match get item "kind" JNull, get item "source" JNull with
  | Ok k, Ok s =>
      negb (truthy k) || negb (truthy s)
      || (negb (eq_str k "file") && negb (eq_str k "magnet"))
  | _, _ => false
  end.

(** Every descriptor is of kind file or magnet. *)
Definition kinds_known (m : dict meta) : Prop :=
  Forall (fun p => kind (snd p) = "file" \/ kind (snd p) = "magnet") m.

(** ** [main.py]: the ETA column *)

Module Main.

(** [str(n)] and the [d] presentation of an int. *)
Definition str (n : Z) : string := NilZero.string_of_int (Z.to_int n).

(** Left padding with zeros up to [width] characters. *)
Fixpoint zfill (width : nat) (s : string) : string :=
  match Nat.sub width (String.length s) with
  | O => s
  | S _ =>
      match width with
      | O => s
      | S w => String "0" (zfill w s)
      end
  end.

(** [f"{n:02d}"]: the sign first, zeros after it. *)
Definition format_02d (n : Z) : string :=
  if n <? 0 then String "-" (zfill 1 (str (- n))) else zfill 2 (str n).

Definition dash : string := "—".

(** Lines 48-55. *)
Definition human_eta (seconds : Z) : string :=
  if (seconds <? 0) || (seconds >? 365 * 24 * 3600) then dash
  else
    let '(m, s) := (seconds / 60, seconds mod 60) in
    let '(h, m) := (m / 60, m mod 60) in
    if h >? 0 then
      format_02d h ++ ":" ++ format_02d m ++ ":" ++ format_02d s
    else format_02d m ++ ":" ++ format_02d s.

(** Line 256: the text of the ETA cell for a status record. *)
Definition eta_cell (eta : Z) : string :=
  if eta >=? 0 then human_eta eta else dash.

End Main.

Section AddedDef.
Context {W H : Type}.
Variable lt : Lt.engine W H.

(** One of the two add methods returned [tid] and left the object
    [self1]. *)
Definition added (self : TorrentEngine W H) (tid : string)
    (self1 : TorrentEngine W H) : Prop :=
  (exists u, add_magnet lt u self = (Ok tid, self1)) \/
  (exists p fp, add_torrent_file lt p fp self = (Ok tid, self1)).

End AddedDef.

(** A magnet before its metadata has arrived: no name, nothing wanted yet,
    no transfer. *)
Module Magnet.

Definition no_metadata : Lt.torrent_status :=
  {| Lt.state := 2;
     Lt.total_done := Some 0;
     Lt.total_wanted := Some 0;
     Lt.progress := Some f_zero;
     Lt.download_rate := Some f_zero;
     Lt.upload_rate := Some f_zero;
     Lt.name := Some "";
     Lt.paused := None;
     Lt.is_seeding := Some false;
     Lt.num_peers := Some 0 |}.

End Magnet.

(** The disk with another legacy file, and the object on such a disk. *)
Definition with_legacy (l : file) (d : disk) : disk :=
  {| state_file := state_file d; legacy_file := l;
     state_write := state_write d; legacy_removable := legacy_removable d |}.

Definition on_legacy {W H : Type} (l : file) (self : TorrentEngine W H)
  : TorrentEngine W H :=
  {| download_path := download_path self; _session := _session self;
     _torrents := _torrents self; _meta := _meta self;
     files := with_legacy l (files self) |}.

(** Closed documents and disks for the loading examples. *)
Module Documents.

(** An item without source, one of an unknown kind, one with an empty
    source. *)
Definition unusable_items : list json :=
  [ JObj [("id", JStr "a"); ("kind", JStr "file")];
    JObj [("kind", JStr "http"); ("source", JStr "http://x/y.torrent")];
    JObj [("kind", JStr "magnet"); ("source", JStr "")] ].

(** The current-location file lists the magnet. *)
Definition current_lists_abc : disk :=
  {| state_file :=
       Doc (state_doc [(Scenario.id_abc,
                        {| kind := "magnet";
                           source := JStr Stub.magnet_abc |})]);
     legacy_file := Absent;
     state_write := WriteOk; legacy_removable := true |}.

(** An object whose next write fails half-way. *)
Definition torn : TorrentEngine Stub.world Stub.handle :=
  {| download_path := Scenario.path; _session := [];
     _torrents := _torrents Scenario.tracked_abc;
     _meta := _meta Scenario.tracked_abc;
     files := {| state_file := state_file (files Scenario.tracked_abc);
                 legacy_file := Doc (state_doc Scenario.two_descriptors);
                 state_write := WriteTorn; legacy_removable := true |} |}.

End Documents.

(** The number a field of decimal digits stands for. *)
Definition digits_value (s : string) : option Z :=
  option_map (fun d => Z.of_N (N.of_uint d)) (NilEmpty.uint_of_string s).

(** The disk with no current-location file. *)
Definition without_state (d : disk) : disk :=
  {| state_file := Absent; legacy_file := legacy_file d;
     state_write := state_write d; legacy_removable := legacy_removable d |}.

(** Two disks that agree, except that the first may hold a malformed
    current-location file where the second holds none. *)
Definition torn_for_absent (d1 d2 : disk) : Prop :=
  legacy_file d1 = legacy_file d2 /\
  state_write d1 = state_write d2 /\
  legacy_removable d1 = legacy_removable d2 /\
  (state_file d1 = state_file d2 \/
   (state_file d1 = Malformed /\ state_file d2 = Absent)).

(** Two objects that agree up to [torn_for_absent] on their disks. *)
Definition alike {W H : Type} (s1 s2 : TorrentEngine W H) : Prop :=
  download_path s1 = download_path s2 /\
  _session s1 = _session s2 /\
  _torrents s1 = _torrents s2 /\
  _meta s1 = _meta s2 /\
  torn_for_absent (files s1) (files s2).

(** The disk of [Documents.torn] after the torn write, once writes succeed
    again. *)
Definition healed_after_torn : disk :=
  {| state_file := Malformed;
     legacy_file := Doc (state_doc Scenario.two_descriptors);
     state_write := WriteOk; legacy_removable := true |}.

(* ****************************************************************** *)
(** * Part II: theorems *)

(* ================================================================== *)
(** * Facts about dicts *)

Section DictFacts.
Context {V : Type}.
Implicit Types (d : dict V) (k : string) (v : V).

Lemma dict_get_In_keys d k :
  dict_get k d <> None <-> In k (keys d).
Proof.
  induction d as [|[k' v'] d IH]; simpl.
  - split; [congruence | tauto].
  - destruct (String.eqb_spec k' k) as [->|Hne].
    + split; [auto | congruence].
    + rewrite IH. split; [auto | intros [E|E]; [congruence | exact E]].
Qed.

Lemma dict_get_None_keys d k :
  dict_get k d = None <-> ~ In k (keys d).
Proof.
  rewrite <- dict_get_In_keys. destruct (dict_get k d) as [v|].
  - split; [discriminate | intros Hn; exfalso; apply Hn; discriminate].
  - split; [intros _ Hn; apply Hn; reflexivity | reflexivity].
Qed.

Lemma keys_dict_pop d k k' :
  In k' (keys (dict_pop k d)) <-> In k' (keys d) /\ k' <> k.
Proof.
  unfold keys, dict_pop. induction d as [|[k0 v0] d IH]; simpl.
  - tauto.
  - destruct (String.eqb_spec k0 k) as [->|Hne]; simpl; rewrite IH.
    + split; [tauto | intros [[E|E] Hn]; [congruence | tauto]].
    + split; [intros [E|E]; [subst; tauto | tauto] | tauto].
Qed.

Lemma dict_get_pop_same d k : dict_get k (dict_pop k d) = None.
Proof.
  apply dict_get_None_keys. rewrite keys_dict_pop. tauto.
Qed.

Lemma dict_get_pop_other d k k' :
  k' <> k -> dict_get k' (dict_pop k d) = dict_get k' d.
Proof.
  intros Hne. unfold dict_pop. induction d as [|[k0 v0] d IH]; simpl.
  - reflexivity.
  - destruct (String.eqb_spec k0 k) as [->|Hk]; simpl.
    + destruct (String.eqb_spec k k'); [congruence | exact IH].
    + destruct (String.eqb_spec k0 k'); [reflexivity | exact IH].
Qed.

Lemma dict_pop_absent d k : ~ In k (keys d) -> dict_pop k d = d.
Proof.
  unfold keys, dict_pop. induction d as [|[k0 v0] d IH]; simpl; intros Hn.
  - reflexivity.
  - destruct (String.eqb_spec k0 k) as [->|Hk]; simpl.
    + tauto.
    + f_equal. apply IH. tauto.
Qed.

Lemma keys_dict_set d k v k' :
  In k' (keys (dict_set k v d)) <-> k' = k \/ In k' (keys d).
Proof.
  unfold keys. induction d as [|[k0 v0] d IH]; simpl.
  - intuition congruence.
  - destruct (String.eqb_spec k0 k) as [->|Hk]; simpl.
    + intuition congruence.
    + rewrite IH. intuition congruence.
Qed.

Lemma dict_get_set_same d k v : dict_get k (dict_set k v d) = Some v.
Proof.
  induction d as [|[k0 v0] d IH]; simpl.
  - now rewrite String.eqb_refl.
  - destruct (String.eqb_spec k0 k) as [->|Hk]; simpl.
    + now rewrite String.eqb_refl.
    + destruct (String.eqb_spec k0 k); [congruence | exact IH].
Qed.

Lemma dict_set_fresh d k v :
  ~ In k (keys d) -> dict_set k v d = (d ++ [(k, v)])%list.
Proof.
  unfold keys. induction d as [|[k0 v0] d IH]; simpl; intros Hn.
  - reflexivity.
  - destruct (String.eqb_spec k0 k) as [->|Hk]; [tauto|].
    f_equal. apply IH. tauto.
Qed.

Lemma keys_fold_pop (l : list string) d k' :
  In k' (keys (fold_left (fun t tid => dict_pop tid t) l d))
  <-> In k' (keys d) /\ ~ In k' l.
Proof.
  revert d. induction l as [|k l IH]; simpl; intros d.
  - tauto.
  - rewrite IH, keys_dict_pop. intuition congruence.
Qed.

Lemma dict_get_fold_pop_other (l : list string) d k' :
  ~ In k' l ->
  dict_get k' (fold_left (fun t tid => dict_pop tid t) l d) = dict_get k' d.
Proof.
  revert d. induction l as [|k l IH]; simpl; intros d Hn.
  - reflexivity.
  - rewrite IH by tauto. apply dict_get_pop_other. intuition congruence.
Qed.

End DictFacts.

(* ================================================================== *)
(** * Facts about binary64 arithmetic *)

Lemma iter_pos_invariant {A} (P : A -> Prop) (f : A -> A) :
  (forall x, P x -> P (f x)) -> forall n x, P x -> P (iter_pos f n x).
Proof.
  intros Hf. induction n as [n IH|n IH|]; simpl; intros x Hx; auto.
Qed.

Lemma shr_1_nonneg mrs : 0 <= shr_m mrs -> 0 <= shr_m (shr_1 mrs).
Proof.
  destruct mrs as [m r s]. simpl.
  destruct m as [|p|p]; try destruct p; simpl; lia.
Qed.

Lemma shr_fexp_nonneg m e l :
  0 <= m -> 0 <= shr_m (fst (shr_fexp prec emax m e l)).
Proof.
  intros Hm. unfold shr_fexp, shr.
  assert (H0 : 0 <= shr_m (shr_record_of_loc m l)).
  { destruct l as [|[ | | ]]; simpl; exact Hm. }
  destruct (fexp prec emax (Zdigits2 m + e) - e); simpl; try exact H0.
  apply (iter_pos_invariant (fun r => 0 <= shr_m r)); auto using shr_1_nonneg.
Qed.

Lemma round_nearest_even_nonneg m l : 0 <= m -> 0 <= round_nearest_even m l.
Proof.
  intros Hm. destruct l as [|[ | | ]]; simpl; try lia.
  destruct (Z.even m); lia.
Qed.

Lemma binary_round_aux_sign sx mx ex lx :
  0 <= mx ->
  match binary_round_aux prec emax sx mx ex lx with
  | S754_zero s | S754_infinity s | S754_finite s _ _ => s = sx
  | S754_nan => False
  end.
Proof.
  intros Hm. unfold binary_round_aux.
  pose proof (shr_fexp_nonneg mx ex lx Hm) as H1.
  destruct (shr_fexp prec emax mx ex lx) as [mrs' e']. simpl in H1.
  pose proof (shr_fexp_nonneg
                (round_nearest_even (shr_m mrs') (loc_of_shr_record mrs'))
                e' loc_Exact (round_nearest_even_nonneg _ _ H1)) as H2.
  destruct (shr_fexp prec emax _ e' loc_Exact) as [mrs'' e'']. simpl in H2.
  destruct (shr_m mrs'') as [|m|m]; try reflexivity.
  - destruct (e'' <=? emax - prec); reflexivity.
  - lia.
Qed.

Lemma float_of_int_sign n a :
  0 < n -> float_of_int n = Ok a -> sign_clear a /\ is_finite a = true.
Proof.
  intros Hn. unfold float_of_int, binary_normalize.
  destruct n as [|p|p]; try lia.
  unfold binary_round.
  destruct (shl_align p 0 (fexp prec emax (Z.pos (digits2_pos p) + 0)))
    as [mz ez].
  pose proof (binary_round_aux_sign false (Z.pos mz) ez loc_Exact
                (Pos2Z.is_nonneg mz)) as Hs.
  destruct (binary_round_aux prec emax false (Z.pos mz) ez loc_Exact);
    intros E; inversion E; subst; simpl; try tauto; try discriminate.
Qed.

Lemma flt_zero_positive x :
  flt f_zero x = true ->
  x = S754_infinity false \/ exists m e, x = S754_finite false m e.
Proof.
  unfold flt, f_zero, SFltb, SFcompare.
  destruct x as [s|s| |s m e]; try discriminate;
    destruct s; try discriminate; eauto.
Qed.

Lemma SFdiv_core_nonneg m1 e1 m2 e2 :
  0 <= fst (fst (SFdiv_core_binary prec emax (Z.pos m1) e1 (Z.pos m2) e2)).
Proof.
  unfold SFdiv_core_binary.
  set (s := e1 - e2 - _).
  set (m' := match s with Z.pos _ => Z.shiftl (Z.pos m1) s
                        | 0 => Z.pos m1 | Z.neg _ => 0 end).
  assert (Hm' : 0 <= m').
  { subst m'. destruct s; try lia. apply Z.shiftl_nonneg. lia. }
  pose proof (Z_div_mod m' (Z.pos m2) ltac:(lia)) as Hd.
  destruct (Z.div_eucl m' (Z.pos m2)) as [q r]. simpl.
  destruct Hd as [Hq Hr]. nia.
Qed.

Lemma SFdiv_sign a x :
  sign_clear a -> is_finite a = true -> flt f_zero x = true ->
  sign_clear (SFdiv prec emax a x).
Proof.
  intros Ha Hfin Hx.
  destruct (flt_zero_positive x Hx) as [->|(m & e & ->)];
    destruct a as [sa|sa| |sa ma ea]; simpl in *; try discriminate;
    try tauto; subst sa; try reflexivity.
  pose proof (SFdiv_core_nonneg ma ea m e) as Hq.
  destruct (SFdiv_core_binary prec emax (Z.pos ma) ea (Z.pos m) e)
    as [[mz ez] lz]. simpl in Hq.
  pose proof (binary_round_aux_sign false mz ez lz Hq) as Hs.
  simpl. destruct (binary_round_aux prec emax false mz ez lz); auto.
Qed.

(** On a float that is not negative, [int] is the floor. *)
Lemma int_of_float_floor q :
  sign_clear q ->
  int_of_float q =
    if is_finite q then Ok (float_floor q) else Raise OverflowError.
Proof.
  destruct q as [s|s| |s m e]; simpl; try tauto; intros ->; reflexivity.
Qed.

(** [float_floor] is the floor of the value [(-1)^s * m * 2^e]. *)
Lemma float_floor_spec s m e :
  let v := cond_Zopp s (Z.pos m) in
  let n := float_floor (S754_finite s m e) in
  (0 <= e -> n = v * 2 ^ e) /\
  (e < 0 -> n * 2 ^ (- e) <= v < (n + 1) * 2 ^ (- e)).
Proof.
  simpl. split; intros He.
  - now rewrite Z.shiftl_mul_pow2.
  - assert (Hs : Z.shiftl (cond_Zopp s (Z.pos m)) e
                 = cond_Zopp s (Z.pos m) / 2 ^ (- e)).
    { rewrite <- (Z.opp_involutive e) at 1.
      rewrite Z.shiftl_opp_r. apply Z.shiftr_div_pow2. lia. }
    rewrite Hs.
    assert (Hp : 0 < 2 ^ (- e)) by (apply Z.pow_pos_nonneg; lia).
    pose proof (Z.div_mod (cond_Zopp s (Z.pos m)) (2 ^ (- e)) ltac:(lia)) as Hd.
    pose proof (Z.mod_pos_bound (cond_Zopp s (Z.pos m)) (2 ^ (- e)) Hp) as Hb.
    nia.
Qed.

Lemma float_floor_nonneg q : sign_clear q -> 0 <= float_floor q.
Proof.
  destruct q as [s|s| |s m e]; simpl; try lia. intros ->. simpl.
  apply Z.shiftl_nonneg. lia.
Qed.

(* ================================================================== *)
(** * The status derivations *)

Lemma reconcile_fields tid s info prios snap :
  reconcile tid s info prios = Ok snap ->
  snap_id snap = tid /\
  snap_state snap =
    display_state (raw_state_name (Lt.state s))
      (getattr (Lt.paused s) false) (getattr (Lt.is_seeding s) false)
      (getattr (Lt.progress s) f_zero) (getattr (Lt.download_rate s) f_zero) /\
  snap_total_size snap =
    effective_total_size (getattr (Lt.total_wanted s) 0) info prios /\
  eta_sec (snap_total_size snap) (getattr (Lt.total_done s) 0)
          (getattr (Lt.download_rate s) f_zero) = Ok (snap_eta snap).
Proof.
  unfold reconcile.
  destruct (eta_sec _ _ _) as [eta|e] eqn:Heta; [|discriminate].
  intros E. inversion E; subst; clear E. simpl. auto.
Qed.

(** ** Display state *)

Lemma raw_state_name_spec raw :
  raw_state_name raw =
    match raw_state_of raw with
    | Some r => raw_state_label r
    | None => "Unknown"
    end.
Proof.
  unfold raw_state_name.
  change (Z.of_nat (List.length state_names)) with 8.
  destruct (Z.leb_spec 0 raw) as [Hlo|Hlo];
    destruct (Z.ltb_spec raw 8) as [Hhi|Hhi]; simpl andb; cbv iota.
  - assert (Hc : raw = 0 \/ raw = 1 \/ raw = 2 \/ raw = 3 \/ raw = 4 \/
                 raw = 5 \/ raw = 6 \/ raw = 7) by lia.
    destruct Hc as [->|[->|[->|[->|[->|[->|[->| ->]]]]]]]; reflexivity.
  - destruct raw as [|p|p]; try lia.
    destruct p as [[[p|p|]|[p|p|]|]|[[p|p|]|[p|p|]|]|]; try lia; reflexivity.
  - destruct raw as [|p|p]; try lia. reflexivity.
  - lia.
Qed.

Lemma display_state_refines raw is_paused is_seeding progress rate :
  display_state (raw_state_name raw) is_paused is_seeding progress rate =
  display_state_spec raw is_paused is_seeding progress rate.
Proof.
  unfold display_state, display_state_spec, stalled. simpl.
  rewrite raw_state_name_spec. reflexivity.
Qed.

(** The constants of the comparison are the doubles of [1] and
    [50 * 1024]. *)
Lemma float_constants :
  float_of_int 1 = Ok f_one /\ float_of_int (50 * 1024) = Ok f_51200.
Proof. split; reflexivity. Qed.

(** C3.  For every raw status, the state label of the record built from it
    follows the precedence of the specification, first match first:
    "Paused" when the paused flag is set, else "Seeding" when the seeding
    flag is set, else "Resuming" when [0 < progress < 1] and the download
    rate is below 50 KiB/s, else the name of the raw state in the
    enumeration of eight, "Unknown" outside of it. *)
Theorem display_state_first_match tid s info prios snap :
  reconcile tid s info prios = Ok snap ->
  snap_state snap =
    display_state_spec (Lt.state s)
      (getattr (Lt.paused s) false) (getattr (Lt.is_seeding s) false)
      (getattr (Lt.progress s) f_zero) (getattr (Lt.download_rate s) f_zero).
Proof.
  intros Hr. apply reconcile_fields in Hr as (_ & -> & _).
  apply display_state_refines.
Qed.

(** The scenario of the specification: at [progress=0.42] and 10 000 B/s a
    torrent whose raw state is Downloading is shown as "Resuming". *)
Lemma display_state_first_match_witness :
  exists snap,
    reconcile "t" Stub.slow_download None None = Ok snap /\
    raw_state_of (Lt.state Stub.slow_download) = Some Downloading /\
    snap_state snap = "Resuming".
Proof.
  eexists. split; [reflexivity|]. split; [reflexivity|].
  rewrite (display_state_first_match "t" Stub.slow_download None None _
             eq_refl).
  reflexivity.
Defined.

(** Paused wins over everything, seeding over the rest. *)
Lemma display_state_paused raw is_seeding progress rate :
  display_state (raw_state_name raw) true is_seeding progress rate = "Paused".
Proof. reflexivity. Qed.

Lemma display_state_seeding raw progress rate :
  display_state (raw_state_name raw) false true progress rate = "Seeding".
Proof. reflexivity. Qed.

(** ** ETA *)

Lemma float_of_int_raises n e : float_of_int n = Raise e -> e = OverflowError.
Proof.
  unfold float_of_int.
  destruct (binary_normalize prec emax n 0 false); congruence.
Qed.

Lemma eta_sec_cases total_size downloaded rate :
  let remaining := Z.max 0 (total_size - downloaded) in
  eta_sec total_size downloaded rate =
    if flt f_zero rate && (remaining >? 0) then
      match int_truediv_float remaining rate with
      | Ok q => if is_finite q then Ok (float_floor q)
                else Raise OverflowError
      | Raise _ => Raise OverflowError
      end
    else Ok (-1).
Proof.
  intros remaining. unfold eta_sec. fold remaining.
  destruct (flt f_zero rate) eqn:Hrate; simpl; [|reflexivity].
  destruct (Z.gtb_spec remaining 0) as [Hrem|Hrem]; [|reflexivity].
  unfold int_truediv_float.
  destruct (float_of_int remaining) as [a|e] eqn:Ha.
  - destruct (float_of_int_sign _ _ Hrem Ha) as [Hs Hf].
    apply int_of_float_floor, SFdiv_sign; assumption.
  - apply float_of_int_raises in Ha. now subst.
Qed.

Lemma feq_zero_not_positive rate :
  feq rate f_zero = true -> flt f_zero rate = false.
Proof.
  unfold feq, flt, f_zero, SFeqb, SFltb, SFcompare.
  destruct rate as [s|s| |s m e]; try discriminate; try reflexivity;
    destruct s; discriminate.
Qed.

(** C4, as amended.  With [remaining = max(0, total_size - downloaded)]: if
    [download_rate > 0] and [remaining > 0] the eta of the record is the
    floor of the double [remaining / download_rate] (and the conversion
    raises [OverflowError] when that double is not finite); in every other
    case the eta is [-1], in particular when [download_rate == 0] and when
    [total_size <= downloaded].  The progress field plays no part. *)
Theorem eta_seconds tid s info prios :
  let total_size :=
    effective_total_size (getattr (Lt.total_wanted s) 0) info prios in
  let downloaded := getattr (Lt.total_done s) 0 in
  let rate := getattr (Lt.download_rate s) f_zero in
  let remaining := Z.max 0 (total_size - downloaded) in
  (flt f_zero rate = true -> remaining > 0 ->
   match int_truediv_float remaining rate with
   | Ok q =>
       if is_finite q then
         exists snap, reconcile tid s info prios = Ok snap /\
                      snap_eta snap = float_floor q /\ 0 <= snap_eta snap
       else reconcile tid s info prios = Raise OverflowError
   | Raise _ => reconcile tid s info prios = Raise OverflowError
   end) /\
  (flt f_zero rate = false \/ remaining = 0 ->
   exists snap, reconcile tid s info prios = Ok snap /\ snap_eta snap = -1) /\
  (feq rate f_zero = true ->
   exists snap, reconcile tid s info prios = Ok snap /\ snap_eta snap = -1) /\
  (total_size <= downloaded ->
   exists snap, reconcile tid s info prios = Ok snap /\ snap_eta snap = -1).
Proof.
  intros total_size downloaded rate remaining.
  assert (Hunknown : flt f_zero rate = false \/ remaining = 0 ->
            exists snap, reconcile tid s info prios = Ok snap /\
                         snap_eta snap = -1).
  { intros Hc. unfold reconcile.
    fold total_size downloaded rate.
    rewrite eta_sec_cases. fold remaining.
    destruct Hc as [-> | ->]; [simpl|rewrite andb_false_r];
      eexists; split; reflexivity. }
  repeat split.
  - intros Hrate Hrem. unfold reconcile.
    fold total_size downloaded rate.
    rewrite eta_sec_cases. fold remaining.
    rewrite Hrate. destruct (Z.gtb_spec remaining 0); [|lia]. simpl.
    unfold int_truediv_float.
    destruct (float_of_int remaining) as [a|e] eqn:Ha; [|reflexivity].
    assert (Hpos : 0 < remaining) by lia.
    destruct (float_of_int_sign _ _ Hpos Ha) as [Hs Hf].
    pose proof (SFdiv_sign a rate Hs Hf Hrate) as Hq.
    destruct (is_finite (SFdiv prec emax a rate)); [|reflexivity].
    eexists. split; [reflexivity|]. simpl.
    split; [reflexivity | now apply float_floor_nonneg].
  - exact Hunknown.
  - intros Hz. apply Hunknown. left. now apply feq_zero_not_positive.
  - intros Hle. apply Hunknown. right. unfold remaining. lia.
Qed.

Lemma eta_seconds_witness :
  exists snap,
    reconcile "t" Inputs.full_progress None None = Ok snap /\
    snap_eta snap = 5 /\ 0 <= snap_eta snap.
Proof.
  exact (proj1 (eta_seconds "t" Inputs.full_progress None None)
               eq_refl eq_refl).
Defined.

(** C4 as stated fails: this status has [progress == 1.0], yet its eta is
    5 seconds, not [-1]. *)
Lemma eta_progress_one_counterexample :
  exists snap,
    reconcile "t" Inputs.full_progress None None = Ok snap /\
    feq (snap_progress snap) f_one = true /\
    snap_eta snap = 5 /\ snap_eta snap <> -1.
Proof.
  eexists. split; [reflexivity|]. simpl.
  repeat split; try reflexivity. discriminate.
Qed.

(** ** Effective total size *)

Lemma fold_left_map {A B C} (f : A -> B -> A) (g : C -> B) l a :
  fold_left f (map g l) a = fold_left (fun x c => f x (g c)) l a.
Proof. revert a. induction l; simpl; auto. Qed.

Lemma fold_left_add_acc (sel : nat -> bool) (size : nat -> Z) l acc :
  fold_left (fun a i => if sel i then a + size i else a) l acc =
  acc + fold_left (fun a i => if sel i then a + size i else a) l 0.
Proof.
  revert acc. induction l as [|i l IH]; simpl; intros acc; [lia|].
  destruct (sel i).
  - rewrite IH, (IH (size i)). lia.
  - apply IH.
Qed.

Lemma size_sum_selected priorities ti :
  List.length priorities = Lt.num_files ti ->
  size_sum priorities ti = selected_size priorities ti.
Proof.
  unfold size_sum, selected_size, Lt.num_files, Lt.file_size.
  generalize (Lt.ti_files ti) as fs. clear ti.
  induction priorities as [|p ps IH]; intros [|f fs] Hlen; simpl in Hlen;
    try discriminate; [reflexivity|].
  injection Hlen as Hlen. specialize (IH fs Hlen).
  cbn [List.length seq fold_left combine filter].
  rewrite <- seq_shift, fold_left_map.
  cbn [nth].
  rewrite (fold_left_add_acc (fun i => nth i ps 0 >? 0)
             (fun i => snd (nth i fs ("", 0)))), IH.
  cbn [fst]. destruct (p >? 0); simpl; lia.
Qed.

Lemma effective_total_size_refines total_wanted info prios :
  effective_total_size total_wanted info prios =
  effective_total_size_spec total_wanted info prios.
Proof.
  unfold effective_total_size, effective_total_size_spec.
  destruct info as [ti|]; [|reflexivity].
  destruct prios as [[|p ps]|].
  - simpl. destruct (Lt.num_files ti) eqn:Hn; [|reflexivity].
    unfold selected_size. reflexivity.
  - cbn [andb]. destruct (Nat.eqb_spec (List.length (p :: ps)) (Lt.num_files ti))
      as [Hlen|Hlen]; [|reflexivity].
    rewrite size_sum_selected by exact Hlen. reflexivity.
  - reflexivity.
Qed.

(** C5.  The total size of the record built for a status query is the sum
    of the sizes of the files whose priority is greater than zero when the
    torrent info and the per-file priorities can be had, there are as many
    priorities as files, and that sum is positive; in every other case it
    is the wanted total the engine reports. *)
Theorem effective_total_size_selected tid s info prios snap :
  reconcile tid s info prios = Ok snap ->
  snap_total_size snap =
    effective_total_size_spec (getattr (Lt.total_wanted s) 0) info prios.
Proof.
  intros Hr. apply reconcile_fields in Hr as (_ & _ & -> & _).
  apply effective_total_size_refines.
Qed.

Lemma effective_total_size_selected_witness :
  exists snap,
    reconcile "t" Stub.slow_download (Some (Stub.info_of "/a.torrent"))
              (Some [1; 0]) = Ok snap /\
    snap_total_size snap = 700.
Proof.
  eexists. split; [reflexivity|].
  rewrite (effective_total_size_selected "t" Stub.slow_download
             (Some (Stub.info_of "/a.torrent")) (Some [1; 0]) _ eq_refl).
  reflexivity.
Defined.

(* ================================================================== *)
(** * What the methods do to the two maps *)

Section MapsInvariant.
Context {W H : Type}.
Variable lt : Lt.engine W H.

(** A property of the two maps that every way of changing them keeps. *)
Variable P : dict H -> dict meta -> Prop.
Hypothesis P_set :
  forall t m tid h d, P t m -> P (dict_set tid h t) (dict_set tid d m).
Hypothesis P_pop :
  forall t m tid, P t m -> P (dict_pop tid t) (dict_pop tid m).
Hypothesis P_evict : forall t m tid, P t m -> P (dict_pop tid t) m.
Hypothesis P_clear : forall t m, P t m -> P [] m.

Local Abbreviation holds self := (P (_torrents self) (_meta self)).

Lemma holds_track params d (self : TorrentEngine W H) :
  holds self -> holds (snd (track lt params d self)).
Proof.
  intros Hs. unfold track.
  destruct (Lt.add_torrent lt (_session self) params) as [w [handle|e]];
    simpl; auto.
Qed.

Lemma holds_add_torrent_file p fp (self : TorrentEngine W H) :
  holds self -> holds (snd (add_torrent_file lt p fp self)).
Proof.
  intros Hs. unfold add_torrent_file.
  destruct (Lt.load_torrent_info lt (_session self) p); simpl; auto.
  now apply holds_track.
Qed.

Lemma holds_add_magnet u (self : TorrentEngine W H) :
  holds self -> holds (snd (add_magnet lt u self)).
Proof. intros Hs. unfold add_magnet. now apply holds_track. Qed.

Lemma holds_load_items items :
  forall self : TorrentEngine W H,
    holds self -> holds (snd (load_items lt items self)).
Proof.
  induction items as [|item rest IH]; intros self Hs; simpl; auto.
  destruct (get item "kind" JNull) as [k|]; simpl; auto.
  destruct (get item "source" JNull) as [s|]; simpl; auto.
  destruct (negb (truthy k) || negb (truthy s)); auto.
  destruct (eq_str k "file"); [now apply IH, holds_add_torrent_file|].
  destruct (eq_str k "magnet"); [now apply IH, holds_add_magnet|].
  now apply IH.
Qed.

Lemma holds_load_state (self : TorrentEngine W H) :
  holds self -> holds (snd (_load_state lt self)).
Proof.
  intros Hs. unfold _load_state.
  destruct (if is_None (read_current (files self))
               && exists_ (legacy_file (files self))
            then migrate (files self)
            else (read_current (files self), files self)) as [data d].
  destruct (negb (truthy data)); simpl; auto.
  destruct (get data "torrents" (JArr [])) as [torrents|]; simpl; auto.
  destruct (iter torrents) as [items|]; simpl; auto.
  now apply holds_load_items.
Qed.

Lemma holds_fold_pop to_remove :
  forall t m, P t m ->
              P (fold_left (fun t tid => dict_pop tid t) to_remove t) m.
Proof.
  induction to_remove as [|tid l IH]; simpl; auto.
Qed.

Lemma holds_get_status_list (self : TorrentEngine W H) :
  holds self -> holds (snd (get_status_list lt self)).
Proof.
  intros Hs. unfold get_status_list.
  destruct (status_loop lt (_session self) (_torrents self))
    as [[result to_remove]|]; simpl; auto.
  now apply holds_fold_pop.
Qed.

Lemma holds_pause tid (self : TorrentEngine W H) :
  holds self -> holds (snd (pause lt tid self)).
Proof.
  intros Hs. unfold pause.
  destruct (dict_get tid (_torrents self)); simpl; auto.
Qed.

Lemma holds_resume tid (self : TorrentEngine W H) :
  holds self -> holds (snd (resume lt tid self)).
Proof.
  intros Hs. unfold resume.
  destruct (dict_get tid (_torrents self)); simpl; auto.
Qed.

Lemma holds_remove tid df (self : TorrentEngine W H) :
  holds self -> holds (snd (remove lt tid df self)).
Proof.
  intros Hs. unfold remove.
  destruct (dict_get tid (_torrents self)) as [handle|]; simpl; auto.
  destruct (Lt.remove_torrent lt (_session self) handle _) as [w [u|e]];
    simpl; auto.
Qed.

Lemma holds_close (self : TorrentEngine W H) :
  holds self -> holds (snd (close lt self)).
Proof. intros Hs. unfold close. simpl. eauto. Qed.

Lemma holds_run c (self : TorrentEngine W H) :
  holds self -> holds (run lt c self).
Proof.
  intros Hs. destruct c; cbn [run].
  - now apply holds_add_torrent_file.
  - now apply holds_add_magnet.
  - now apply holds_get_status_list.
  - now apply holds_pause.
  - now apply holds_resume.
  - now apply holds_remove.
  - now apply holds_close.
Qed.

Lemma holds_reachable (self : TorrentEngine W H) :
  P [] [] -> reachable lt self -> holds self.
Proof.
  intros P0 Hr. induction Hr as [path w d|c self Hr IH|path w d self Hr IH].
  - unfold __init__. now apply holds_load_state.
  - now apply holds_run.
  - exact IH.
Qed.

End MapsInvariant.

(** ** The live map stays inside the descriptor map *)

Section LiveSubset.
Context {W H : Type}.
Variable lt : Lt.engine W H.

Local Abbreviation subset t m :=
  (forall tid : string, In tid (keys t) -> In tid (keys m)).

Lemma subset_set (t : dict H) (m : dict meta) tid h d :
  subset t m -> subset (dict_set tid h t) (dict_set tid d m).
Proof.
  intros Hs k. rewrite !keys_dict_set. intros [->|Hk]; auto.
Qed.

Lemma subset_pop (t : dict H) (m : dict meta) tid :
  subset t m -> subset (dict_pop tid t) (dict_pop tid m).
Proof.
  intros Hs k. rewrite !keys_dict_pop. intros [Hk Hne]; auto.
Qed.

Lemma subset_evict (t : dict H) (m : dict meta) tid :
  subset t m -> subset (dict_pop tid t) m.
Proof.
  intros Hs k. rewrite keys_dict_pop. intros [Hk Hne]; auto.
Qed.

(** Each call keeps the invariant, whatever the state it starts from. *)
Lemma run_preserves_live_subset_meta c (self : TorrentEngine W H) :
  live_subset_meta self -> live_subset_meta (run lt c self).
Proof.
  unfold live_subset_meta.
  apply (holds_run lt (fun t m => subset t m)).
  - intros t m tid h d Hs. exact (subset_set t m tid h d Hs).
  - intros t m tid Hs. exact (subset_pop t m tid Hs).
  - intros t m tid Hs. exact (subset_evict t m tid Hs).
  - intros t m _ tid [].
Qed.

(** C10.  In every state the object can reach, every key of the live
    handle map is a key of the descriptor map: [__init__] establishes it,
    the two add methods set both maps at the same id, [remove] pops both,
    the eviction of [get_status_list] and [close] shrink the live map only,
    and [pause], [resume] and the surroundings leave both maps alone. *)
Theorem live_ids_have_descriptors (self : TorrentEngine W H) :
  reachable lt self -> live_subset_meta self.
Proof.
  intros Hr. unfold live_subset_meta.
  apply (holds_reachable lt (fun t m => subset t m)); try exact Hr.
  - intros t m tid h d Hs. exact (subset_set t m tid h d Hs).
  - intros t m tid Hs. exact (subset_pop t m tid Hs).
  - intros t m tid Hs. exact (subset_evict t m tid Hs).
  - intros t m _ tid [].
  - intros tid [].
Qed.

(** The steps named above, method by method. *)
Lemma add_sets_both_maps params d (self : TorrentEngine W H) tid :
  fst (track lt params d self) = Ok tid ->
  dict_get tid (_torrents (snd (track lt params d self))) <> None /\
  dict_get tid (_meta (snd (track lt params d self))) = Some d.
Proof.
  unfold track.
  destruct (Lt.add_torrent lt (_session self) params) as [w [handle|e]];
    simpl; [|discriminate].
  intros E. inversion E; subst.
  rewrite !dict_get_set_same. split; [discriminate | reflexivity].
Qed.

Lemma status_query_keeps_meta (self : TorrentEngine W H) :
  _meta (snd (get_status_list lt self)) = _meta self /\
  forall tid, In tid (keys (_torrents (snd (get_status_list lt self)))) ->
              In tid (keys (_torrents self)).
Proof.
  unfold get_status_list.
  destruct (status_loop lt (_session self) (_torrents self))
    as [[result to_remove]|]; simpl; split; auto.
  intros tid Hin. apply keys_fold_pop in Hin. tauto.
Qed.

Lemma close_keeps_meta (self : TorrentEngine W H) :
  _meta (snd (close lt self)) = _meta self /\
  _torrents (snd (close lt self)) = [].
Proof. split; reflexivity. Qed.

(** ** Both maps stay dicts *)

Lemma NoDup_keys_dict_set {V} (d : dict V) k v :
  NoDup (keys d) -> NoDup (keys (dict_set k v d)).
Proof.
  unfold keys. induction d as [|[k0 v0] d IH]; simpl; intros Hn.
  - constructor; [tauto | constructor].
  - destruct (String.eqb_spec k0 k) as [->|Hk]; simpl; [exact Hn|].
    inversion Hn as [|? ? Hnotin Hd]; subst.
    constructor; [|now apply IH].
    intros Hin. apply (keys_dict_set d k v k0) in Hin.
    destruct Hin as [E|Hin]; [congruence | exact (Hnotin Hin)].
Qed.

Lemma NoDup_keys_dict_pop {V} (d : dict V) k :
  NoDup (keys d) -> NoDup (keys (dict_pop k d)).
Proof.
  induction d as [|[k0 v0] d IH]; simpl; intros Hn; [constructor|].
  inversion Hn as [|? ? Hnotin Hd]; subst.
  unfold dict_pop. simpl.
  destruct (negb (String.eqb k0 k)); simpl; [|now apply IH].
  constructor; [|now apply IH].
  intros Hin. apply (keys_dict_pop d k k0) in Hin. tauto.
Qed.

Lemma reachable_well_formed (self : TorrentEngine W H) :
  reachable lt self -> well_formed self.
Proof.
  intros Hr. unfold well_formed.
  apply (holds_reachable lt (fun t m => NoDup (keys t) /\ NoDup (keys m)));
    try exact Hr.
  - intros t m tid h d [Ht Hm]. split; now apply NoDup_keys_dict_set.
  - intros t m tid [Ht Hm]. split; now apply NoDup_keys_dict_pop.
  - intros t m tid [Ht Hm]. split; [now apply NoDup_keys_dict_pop | exact Hm].
  - intros t m [Ht Hm]. split; [constructor | exact Hm].
  - split; constructor.
Qed.

End LiveSubset.

Lemma live_ids_have_descriptors_witness :
  live_subset_meta Scenario.tracked_abc /\
  keys (_torrents Scenario.tracked_abc) = [Scenario.id_abc].
Proof.
  split; [|reflexivity].
  apply (live_ids_have_descriptors Stub.engine).
  exact (reach_call Stub.engine _ _
           (reach_init Stub.engine Scenario.path [] Stub.empty_disk)).
Defined.

(* ================================================================== *)
(** * The status query *)

Lemma dict_get_In {V} (d : dict V) k v : dict_get k d = Some v -> In (k, v) d.
Proof.
  induction d as [|[k0 v0] d IH]; simpl; [discriminate|].
  destruct (String.eqb_spec k0 k) as [->|Hk].
  - intros E. inversion E. now left.
  - intros E. right. now apply IH.
Qed.

Lemma NoDup_keys_unique {V} (d : dict V) k v v' :
  NoDup (keys d) -> In (k, v) d -> In (k, v') d -> v = v'.
Proof.
  unfold keys. induction d as [|[k0 v0] d IH]; simpl; intros Hn H1 H2;
    [contradiction|].
  inversion Hn as [|? ? Hnotin Hd]; subst.
  destruct H1 as [E1|H1], H2 as [E2|H2].
  - congruence.
  - inversion E1; subst. exfalso. apply Hnotin.
    change k with (fst (k, v')). now apply in_map.
  - inversion E2; subst. exfalso. apply Hnotin.
    change k with (fst (k, v)). now apply in_map.
  - now apply IH.
Qed.

Lemma In_keys_filter {V} (f : string * V -> bool) (d : dict V) k :
  In k (keys (filter f d)) -> exists v, In (k, v) d /\ f (k, v) = true.
Proof.
  unfold keys. intros Hin. apply in_map_iff in Hin as [[k' v] [E Hin]].
  simpl in E. subst k'. apply filter_In in Hin. eauto.
Qed.

Lemma fold_pop_cons {V} (l : list string) (kv : string * V) (d : dict V) :
  fold_left (fun t k => dict_pop k t) l (kv :: d) =
  if existsb (String.eqb (fst kv)) l
  then fold_left (fun t k => dict_pop k t) l d
  else kv :: fold_left (fun t k => dict_pop k t) l d.
Proof.
  revert d. induction l as [|k l IH]; intros d; [reflexivity|].
  cbn [fold_left existsb]. unfold dict_pop at 2. cbn [filter].
  destruct (String.eqb (fst kv) k); cbn [negb orb].
  - reflexivity.
  - apply IH.
Qed.

(** Popping a list of keys keeps exactly the entries with other keys. *)
Lemma fold_pop_filter {V} (l : list string) (d : dict V) :
  fold_left (fun t k => dict_pop k t) l d =
  filter (fun kv => negb (existsb (String.eqb (fst kv)) l)) d.
Proof.
  induction d as [|kv d IH].
  - induction l; simpl; auto.
  - rewrite fold_pop_cons. cbn [filter].
    destruct (existsb (String.eqb (fst kv)) l); cbn [negb]; now rewrite IH.
Qed.

Lemma existsb_keys_filter {V} (f : string * V -> bool) (d : dict V) kv :
  NoDup (keys d) -> In kv d ->
  existsb (String.eqb (fst kv)) (keys (filter f d)) = f kv.
Proof.
  intros Hnd Hin. destruct (f kv) eqn:Hf.
  - apply existsb_exists. exists (fst kv). split; [|apply String.eqb_refl].
    unfold keys. apply in_map, filter_In. auto.
  - destruct (existsb _ _) eqn:He; [|reflexivity].
    apply existsb_exists in He as (k & Hk & Heq).
    apply String.eqb_eq in Heq. subst k.
    apply In_keys_filter in Hk as (v & Hv & Hfv).
    destruct kv as [k0 v0]. simpl in *.
    assert (v = v0) by (eapply NoDup_keys_unique; eauto). subst v.
    congruence.
Qed.

Section StatusQuery.
Context {W H : Type}.
Variable lt : Lt.engine W H.

Lemma status_loop_shape w items :
  forall result to_remove,
    status_loop lt w items = Ok (result, to_remove) ->
    to_remove = keys (filter (invalidated lt w) items) /\
    map snap_id result =
      keys (filter (fun e => negb (invalidated lt w e)) items).
Proof.
  induction items as [|[tid handle] rest IH]; simpl; intros result to_remove.
  - intros E. inversion E. split; reflexivity.
  - destruct (Lt.status lt w handle) as [s|e] eqn:Hst.
    + assert (Hv : invalidated lt w (tid, handle) = false)
        by (unfold invalidated; simpl; now rewrite Hst).
      rewrite Hv.
      destruct (reconcile tid s _ _) as [snap|] eqn:Hrec; [|discriminate].
      destruct (status_loop lt w rest) as [[r rm]|]; [|discriminate].
      intros E. inversion E; subst.
      destruct (IH r to_remove eq_refl) as [-> Hr].
      apply reconcile_fields in Hrec as (Hid & _).
      simpl. split; [reflexivity | now rewrite Hid, Hr].
    + destruct e; try discriminate.
      assert (Hv : invalidated lt w (tid, handle) = true)
        by (unfold invalidated; simpl; now rewrite Hst).
      rewrite Hv.
      destruct (status_loop lt w rest) as [[r rm]|]; [|discriminate].
      intros E. inversion E; subst.
      destruct (IH result rm eq_refl) as [-> Hr].
      simpl. split; [reflexivity | exact Hr].
Qed.

Lemma status_loop_answers w items :
  Forall (answers lt w) items ->
  exists result to_remove,
    status_loop lt w items = Ok (result, to_remove) /\
    forall tid handle s,
      In (tid, handle) items -> Lt.status lt w handle = Ok s ->
      exists snap,
        In snap result /\
        reconcile tid s (Lt.get_torrent_info lt w handle)
                  (Lt.file_priorities lt w handle) = Ok snap.
Proof.
  induction 1 as [|[tid handle] rest Ha _ IH]; simpl.
  - exists [], []. split; [reflexivity | contradiction].
  - destruct IH as (r & rm & -> & Hall).
    destruct Ha as [Hinv|(s & snap & Hst & Hrec)]; simpl in *.
    + rewrite Hinv. exists r, (tid :: rm). split; [reflexivity|].
      intros tid' h' s' [E|Hin] Hs'.
      * inversion E; subst. congruence.
      * eauto.
    + rewrite Hst, Hrec. exists (snap :: r), rm. split; [reflexivity|].
      intros tid' h' s' [E|Hin] Hs'.
      * inversion E; subst. exists snap. split; [now left|].
        congruence.
      * destruct (Hall tid' h' s' Hin Hs') as (sn & Hsn & Hr).
        exists sn. split; [now right | exact Hr].
Qed.

(** The ids of the records of any status query are live keys. *)
Lemma get_status_list_ids (self : TorrentEngine W H) result self' :
  get_status_list lt self = (Ok result, self') ->
  forall tid, In tid (map snap_id result) -> In tid (keys (_torrents self)).
Proof.
  unfold get_status_list.
  destruct (status_loop lt (_session self) (_torrents self))
    as [[r rm]|] eqn:Hloop; [|discriminate].
  intros E tid Hin. inversion E; subst.
  apply status_loop_shape in Hloop as [_ Hids]. rewrite Hids in Hin.
  apply In_keys_filter in Hin as (v & Hv & _).
  change tid with (fst (tid, v)). now apply in_map.
Qed.

(** C9.  When the engine reports a tracked handle invalid during a status
    query (and every other tracked handle is reported invalid too or gives
    a status from which a record is built), [get_status_list] returns; the
    entry is gone from the live map, which keeps exactly the entries whose
    handle is not reported invalid; the handles with a status stay in the
    live map and their records are in the returned list; the descriptor
    map, the state files and the session are as before; the id is in no
    record of this query nor of any later one. *)
Theorem status_query_evicts_invalid_handle
    (self : TorrentEngine W H) tid handle :
  dict_get tid (_torrents self) = Some handle ->
  Lt.status lt (_session self) handle = Raise RuntimeError ->
  NoDup (keys (_torrents self)) ->
  Forall (answers lt (_session self)) (_torrents self) ->
  exists result self',
    get_status_list lt self = (Ok result, self') /\
    dict_get tid (_torrents self') = None /\
    _torrents self' =
      filter (fun e => negb (invalidated lt (_session self) e))
             (_torrents self) /\
    (_meta self' = _meta self /\ files self' = files self /\
     _session self' = _session self /\
     download_path self' = download_path self) /\
    ~ In tid (map snap_id result) /\
    (forall tid' handle' s,
        dict_get tid' (_torrents self) = Some handle' ->
        Lt.status lt (_session self) handle' = Ok s ->
        dict_get tid' (_torrents self') = Some handle' /\
        exists snap,
          In snap result /\ snap_id snap = tid' /\
          reconcile tid' s
            (Lt.get_torrent_info lt (_session self) handle')
            (Lt.file_priorities lt (_session self) handle') = Ok snap) /\
    (forall path w d result' self'',
        get_status_list lt
          {| download_path := path; _session := w;
             _torrents := _torrents self'; _meta := _meta self';
             files := d |} = (Ok result', self'') ->
        ~ In tid (map snap_id result')).
Proof.
  intros Htracked Hinvalid Hdict Hans.
  destruct (status_loop_answers _ _ Hans) as (result & rm & Hloop & Hrecs).
  destruct (status_loop_shape _ _ _ _ Hloop) as [Hrm Hids].
  assert (Hin_rm : In tid rm).
  { rewrite Hrm. unfold keys. change tid with (fst (tid, handle)).
    apply in_map, filter_In. split; [now apply dict_get_In|].
    unfold invalidated. simpl. now rewrite Hinvalid. }
  assert (Hgone :
    dict_get tid (fold_left (fun t k => dict_pop k t) rm (_torrents self))
    = None).
  { apply dict_get_None_keys. rewrite keys_fold_pop. tauto. }
  eexists result, _. unfold get_status_list. rewrite Hloop.
  split; [reflexivity|]. simpl.
  split; [exact Hgone|].
  split.
  { rewrite fold_pop_filter, Hrm. apply filter_ext_in. intros e He.
    now rewrite existsb_keys_filter. }
  split; [auto|].
  split.
  { rewrite Hids. intros Hin.
    apply In_keys_filter in Hin as (h' & Hh' & Hvalid).
    assert (h' = handle)
      by (eapply NoDup_keys_unique; eauto using dict_get_In).
    subst h'. unfold invalidated in Hvalid. simpl in Hvalid.
    rewrite Hinvalid in Hvalid. discriminate. }
  split.
  { intros tid' handle' s Hget Hst. split.
    - rewrite dict_get_fold_pop_other; [exact Hget|].
      rewrite Hrm. intros Hin.
      apply In_keys_filter in Hin as (h' & Hh' & Hinv).
      assert (h' = handle')
        by (eapply NoDup_keys_unique; eauto using dict_get_In).
      subst h'. unfold invalidated in Hinv. simpl in Hinv.
      rewrite Hst in Hinv. discriminate.
    - destruct (Hrecs tid' handle' s (dict_get_In _ _ _ Hget) Hst)
        as (snap & Hsnap & Hrec).
      exists snap. repeat split; auto.
      now apply reconcile_fields in Hrec as (Hid & _). }
  intros path w d result' self'' Hnext Hin.
  apply (get_status_list_ids _ _ _ Hnext) in Hin. simpl in Hin.
  apply dict_get_In_keys in Hin. now rewrite Hgone in Hin.
Qed.

End StatusQuery.

Lemma status_query_evicts_invalid_handle_witness :
  exists result self',
    get_status_list Stub.engine Scenario.with_stale = (Ok result, self') /\
    keys (_torrents Scenario.with_stale)
      = [Scenario.id_abc; Scenario.id_stale] /\
    dict_get Scenario.id_stale (_torrents self') = None /\
    _meta self' = _meta Scenario.with_stale /\
    ~ In Scenario.id_stale (map snap_id result).
Proof.
  destruct (status_query_evicts_invalid_handle Stub.engine
              Scenario.with_stale Scenario.id_stale Stub.stale
              eq_refl eq_refl)
    as (result & self' & Hget & Hgone & _ & (Hmeta & _) & Hnot & _).
  - repeat constructor; simpl; intuition discriminate.
  - apply Forall_cons; [right; do 2 eexists; split; reflexivity|].
    apply Forall_cons; [left; reflexivity | constructor].
  - exists result, self'. repeat split; auto.
Defined.

(* ================================================================== *)
(** * Remove *)

Section Remove.
Context {W H : Type}.
Variable lt : Lt.engine W H.

(** [remove] never raises, takes the id out of both maps whatever the
    engine answers, and does not touch the state files. *)
Lemma remove_detaches (self : TorrentEngine W H) tid df :
  fst (remove lt tid df self) = Ok tt /\
  _torrents (snd (remove lt tid df self)) = dict_pop tid (_torrents self) /\
  _meta (snd (remove lt tid df self)) = dict_pop tid (_meta self) /\
  files (snd (remove lt tid df self)) = files self.
Proof.
  unfold remove.
  destruct (dict_get tid (_torrents self)) as [handle|]; simpl; [|auto].
  destruct (Lt.remove_torrent lt (_session self) handle _) as [w [u|e]];
    simpl; auto.
Qed.

(** After [remove] no status query lists the id. *)
Lemma remove_then_status (self : TorrentEngine W H) tid df path w d result s :
  get_status_list lt
    {| download_path := path; _session := w;
       _torrents := _torrents (snd (remove lt tid df self));
       _meta := _meta (snd (remove lt tid df self)); files := d |}
    = (Ok result, s) ->
  ~ In tid (map snap_id result).
Proof.
  intros Hget Hin. apply (get_status_list_ids lt _ _ _ Hget) in Hin.
  cbn [_torrents] in Hin.
  destruct (remove_detaches self tid df) as (_ & Ht & _). rewrite Ht in Hin.
  apply keys_dict_pop in Hin. tauto.
Qed.

End Remove.

(** C1, the code at the failing input.  The object tracks one magnet and
    the state file lists it.  [remove] takes the id out of both maps, but
    the state file still lists the descriptor afterwards, and an object
    started from these files tracks the id again. *)
Theorem remove_does_not_persist :
  let listed :=
    Doc (state_doc [(Scenario.id_abc,
                     {| kind := "magnet";
                        source := JStr Stub.magnet_abc |})]) in
  let self' :=
    snd (remove Stub.engine Scenario.id_abc false Scenario.tracked_abc) in
  dict_get Scenario.id_abc (_torrents Scenario.tracked_abc)
    = Some Stub.magnet_abc /\
  state_file (files Scenario.tracked_abc) = listed /\
  _torrents self' = [] /\ _meta self' = [] /\
  state_file (files self') = listed /\
  state_file (files self') <> Doc (state_doc (_meta self')) /\
  keys (_meta (snd (__init__ Stub.engine Scenario.path [] (files self'))))
    = [Scenario.id_abc].
Proof.
  simpl. repeat split; try reflexivity. discriminate.
Qed.

(* ================================================================== *)
(** * Pause and resume *)

Section PauseResume.
Context {W H : Type}.
Variable lt : Lt.engine W H.

Lemma write_state_in_sync data d :
  state_file d = Doc data -> state_write d <> WriteTorn ->
  snd (write_state data d) = d.
Proof.
  intros Hfile Hw. unfold write_state. destruct d as [sf lf sw lr].
  simpl in *. subst sf. destruct sw; simpl; congruence.
Qed.

(** C8, as amended.  For an id that is not in the live map, [pause] and
    [resume] return normally and leave both maps and the session as they
    are.  [resume] leaves the state files alone.  [pause] writes the
    state file from the descriptor map (a failing write is swallowed), so
    the file is unchanged when it already holds that set and the write
    does not fail half-way; a write that fails half-way leaves the state
    file malformed. *)
Theorem pause_resume_unknown_id (self : TorrentEngine W H) tid :
  dict_get tid (_torrents self) = None ->
  (fst (pause lt tid self) = Ok tt /\ fst (resume lt tid self) = Ok tt) /\
  (_torrents (snd (pause lt tid self)) = _torrents self /\
   _meta (snd (pause lt tid self)) = _meta self /\
   _session (snd (pause lt tid self)) = _session self) /\
  snd (resume lt tid self) = self /\
  files (snd (pause lt tid self))
    = snd (write_state (state_doc (_meta self)) (files self)) /\
  (state_file (files self) = Doc (state_doc (_meta self)) ->
   state_write (files self) <> WriteTorn ->
   files (snd (pause lt tid self)) = files self) /\
  (state_write (files self) = WriteTorn ->
   state_file (files (snd (pause lt tid self))) = Malformed).
Proof.
  intros Hunknown. unfold pause, resume. rewrite Hunknown. simpl.
  repeat split.
  - intros Hsync Hw. now apply write_state_in_sync.
  - intros Hw. unfold write_state. now rewrite Hw.
Qed.

End PauseResume.

Lemma pause_resume_unknown_id_witness :
  dict_get "nope" (_torrents Scenario.tracked_abc) = None /\
  fst (pause Stub.engine "nope" Scenario.tracked_abc) = Ok tt /\
  snd (resume Stub.engine "nope" Scenario.tracked_abc)
    = Scenario.tracked_abc /\
  files (snd (pause Stub.engine "nope" Scenario.tracked_abc))
    = files Scenario.tracked_abc.
Proof.
  destruct (pause_resume_unknown_id Stub.engine Scenario.tracked_abc "nope"
              eq_refl) as ((Hp & _) & _ & Hr & _ & Hsync & _).
  split; [reflexivity|]. split; [exact Hp|]. split; [exact Hr|].
  apply Hsync; [reflexivity | discriminate].
Defined.

(** C8 as stated fails: on a first start there is no state file, and
    pausing an unknown id creates one. *)
Lemma pause_unknown_id_creates_state_file :
  dict_get "nope" (_torrents Scenario.fresh) = None /\
  state_file (files Scenario.fresh) = Absent /\
  state_file (files (snd (pause Stub.engine "nope" Scenario.fresh)))
    = Doc (state_doc []) /\
  files (snd (pause Stub.engine "nope" Scenario.fresh))
    <> files Scenario.fresh.
Proof.
  repeat split; try reflexivity. discriminate.
Qed.

(* ================================================================== *)
(** * Loading the state *)

Section Load.
Context {W H : Type}.
Variable lt : Lt.engine W H.

(** With no document at either place (absent, unreadable or malformed
    files), [__init__] returns with both maps empty. *)
Lemma load_without_document path w d :
  (forall j, state_file d <> Doc j) -> (forall j, legacy_file d <> Doc j) ->
  fst (__init__ lt path w d) = Ok tt /\
  _torrents (snd (__init__ lt path w d)) = [] /\
  _meta (snd (__init__ lt path w d)) = [] /\
  files (snd (__init__ lt path w d)) = d.
Proof.
  intros Hs Hl. unfold __init__, _load_state, read_current, migrate. simpl.
  destruct d as [sf lf sw lr]. simpl in *.
  destruct sf as [| | |j]; try (exfalso; now apply (Hs j));
    destruct lf as [| | |j]; try (exfalso; now apply (Hl j));
    simpl; auto.
Qed.

(** A document that is a non-empty list makes [__init__] raise. *)
Lemma load_list_document_raises path w d x l :
  state_file d = Doc (JArr (x :: l)) ->
  fst (__init__ lt path w d) = Raise AttributeError.
Proof.
  intros Hs. unfold __init__, _load_state, read_current. simpl.
  rewrite Hs. reflexivity.
Qed.

(** So does a document whose "torrents" member is a number, or a list with
    an element that is not an object. *)
Lemma load_bad_torrents_raises path w d :
  (state_file d = Doc (JObj [("torrents", JInt 5)]) ->
   fst (__init__ lt path w d) = Raise TypeError) /\
  (state_file d = Doc (JObj [("torrents", JArr [JInt 1])]) ->
   fst (__init__ lt path w d) = Raise AttributeError).
Proof.
  split; intros Hs; unfold __init__, _load_state, read_current; simpl;
    rewrite Hs; reflexivity.
Qed.

End Load.

(** C6, the code at the failing input.  The current-location file holds
    the JSON text [[1]]: [__init__] raises [AttributeError] to its caller. *)
Theorem load_state_raises_on_list_document :
  state_file Scenario.list_document = Doc (JArr [JInt 1]) /\
  fst (__init__ Stub.engine Scenario.path [] Scenario.list_document)
    = Raise AttributeError.
Proof. split; reflexivity. Qed.

(* ================================================================== *)
(** * Saving, loading again, and migrating the legacy file *)

Section Restore.
Context {W H : Type}.
Variable lt : Lt.engine W H.

(** A property of the object that tracking a torrent keeps is kept by the
    loop of [_load_state]. *)
Lemma load_items_invariant (Q : TorrentEngine W H -> Prop) :
  (forall params m self, Q self -> Q (snd (track lt params m self))) ->
  forall items self, Q self -> Q (snd (load_items lt items self)).
Proof.
  intros Htrack. induction items as [|item rest IH]; intros self Hq; simpl;
    [exact Hq|].
  destruct (get item "kind" JNull) as [k|]; simpl; auto.
  destruct (get item "source" JNull) as [s|]; simpl; auto.
  destruct (negb (truthy k) || negb (truthy s)); auto.
  destruct (eq_str k "file").
  { apply IH. unfold add_torrent_file.
    destruct (Lt.load_torrent_info lt (_session self) s); simpl; auto. }
  destruct (eq_str k "magnet"); [|auto].
  apply IH. unfold add_magnet. auto.
Qed.

(** One turn of the loop on a stored descriptor the engine re-adds. *)
Lemma load_items_step (self : TorrentEngine W H) k m rest w' tid :
  readd lt (download_path self) (_session self) m = (w', Some tid) ->
  exists handle,
    load_items lt (JObj (("id", JStr k) :: meta_items m) :: rest) self =
    load_items lt rest
      (snd (_save_state
              (with_maps (dict_set tid handle (_torrents self))
                         (dict_set tid m (_meta self))
                         (with_session w' self)))).
Proof.
  unfold readd. destruct m as [kd src]. cbn [kind source].
  destruct (truthy src) eqn:Hsrc; [|discriminate].
  cbn [load_items get meta_items dict_get String.eqb Ascii.eqb Bool.eqb
       kind source].
  destruct (String.eqb_spec kd "file") as [->|Hfile].
  - cbn [truthy eq_str String.eqb Ascii.eqb Bool.eqb negb orb].
    rewrite Hsrc. cbn [negb].
    unfold add_torrent_file.
    destruct (Lt.load_torrent_info lt (_session self) src) as [info|];
      [|discriminate].
    unfold track.
    destruct (Lt.add_torrent lt (_session self) _) as [w1 [handle|]];
      [|discriminate].
    intros E. inversion E; subst. exists handle. reflexivity.
  - destruct (String.eqb_spec kd "magnet") as [->|Hmagnet]; [|discriminate].
    cbn [truthy eq_str String.eqb Ascii.eqb Bool.eqb negb orb].
    rewrite Hsrc. cbn [negb].
    unfold add_magnet, track.
    destruct (Lt.add_torrent lt (_session self) _) as [w1 [handle|]];
      [|discriminate].
    intros E. inversion E; subst. exists handle. reflexivity.
Qed.

(** One turn of the loop on any stored descriptor. *)
Lemma load_items_readd (self : TorrentEngine W H) k m rest :
  exists self1,
    load_items lt (JObj (("id", JStr k) :: meta_items m) :: rest) self =
    load_items lt rest self1 /\
    download_path self1 = download_path self /\
    _session self1 = fst (readd lt (download_path self) (_session self) m) /\
    _meta self1 =
      match snd (readd lt (download_path self) (_session self) m) with
      | Some tid => dict_set tid m (_meta self)
      | None => _meta self
      end.
Proof.
  unfold readd. destruct m as [kd src]. cbn [kind source].
  cbn [load_items get meta_items dict_get String.eqb Ascii.eqb Bool.eqb
       kind source].
  destruct (truthy src) eqn:Hsrc.
  - destruct (String.eqb_spec kd "file") as [->|Hfile].
    + cbn [truthy eq_str String.eqb Ascii.eqb Bool.eqb negb orb].
      cbn [negb].
      unfold add_torrent_file.
      destruct (Lt.load_torrent_info lt (_session self) src) as [info|];
        [|exists self; auto].
      unfold track.
      destruct (Lt.add_torrent lt (_session self) _) as [w1 [handle|]];
        eexists; (split; [reflexivity|]); simpl; auto.
    + destruct (String.eqb_spec kd "magnet") as [->|Hmagnet].
      * cbn [truthy eq_str String.eqb Ascii.eqb Bool.eqb negb orb].
        cbn [negb].
        unfold add_magnet, track.
        destruct (Lt.add_torrent lt (_session self) _) as [w1 [handle|]];
          eexists; (split; [reflexivity|]); simpl; auto.
      * exists self. split; [|auto].
        cbn [eq_str].
        apply String.eqb_neq in Hfile, Hmagnet. rewrite Hfile, Hmagnet.
        destruct (negb (truthy (JStr kd)) || negb true); reflexivity.
  - exists self. split; [|auto].
    replace (negb (truthy (JStr kd)) || negb false) with true
      by (now rewrite orb_true_r).
    reflexivity.
Qed.

(** The loop over stored descriptors returns, and the descriptor map it
    leaves is [reloaded]. *)
Lemma load_items_reloaded ds :
  forall self : TorrentEngine W H,
    fst (load_items lt
           (map (fun p => JObj (("id", JStr (fst p)) :: meta_items (snd p)))
                ds) self) = Ok tt /\
    _meta (snd (load_items lt
                  (map (fun p => JObj (("id", JStr (fst p))
                                         :: meta_items (snd p))) ds) self))
      = reloaded lt (download_path self) (_session self) (_meta self) ds.
Proof.
  induction ds as [|[tid m] rest IH]; intros self; [split; reflexivity|].
  cbn [map fst snd reloaded].
  destruct (load_items_readd self tid m
              (map (fun p => JObj (("id", JStr (fst p))
                                     :: meta_items (snd p))) rest))
    as (self1 & -> & Hp & Hs & Hm).
  destruct (IH self1) as [Hok Hmeta]. rewrite Hok, Hmeta, Hp, Hs, Hm.
  destruct (readd lt (download_path self) (_session self) m) as [w' [t|]];
    split; reflexivity.
Qed.

Lemma keys_app {V} (a b : dict V) :
  keys (a ++ b)%list = (keys a ++ keys b)%list.
Proof. apply map_app. Qed.

(** The loop on stored descriptors that the engine re-adds under their
    ids: they are appended to both maps in order, and the state file is
    written from the descriptor map at every turn. *)
Lemma load_items_restores ds :
  forall self : TorrentEngine W H,
    restores lt (download_path self) (_session self) ds = true ->
    NoDup (keys ds) ->
    (forall k, In k (keys ds) -> ~ In k (keys (_meta self))) ->
    keys (_torrents self) = keys (_meta self) ->
    state_write (files self) = WriteOk ->
    exists self',
      load_items lt
        (map (fun p => JObj (("id", JStr (fst p)) :: meta_items (snd p))) ds)
        self = (Ok tt, self') /\
      _meta self' = (_meta self ++ ds)%list /\
      keys (_torrents self') = keys (_meta self') /\
      legacy_file (files self') = legacy_file (files self) /\
      state_file (files self') =
        match ds with
        | [] => state_file (files self)
        | _ => Doc (state_doc (_meta self'))
        end.
Proof.
  induction ds as [|[tid m] rest IH]; intros self Hres Hnd Hfresh Hkeys Hw.
  - exists self. simpl. rewrite app_nil_r. auto.
  - cbn [restores] in Hres.
    destruct (readd lt (download_path self) (_session self) m)
      as [w' [tid'|]] eqn:Hreadd; [|discriminate].
    apply andb_true_iff in Hres as [Hid Hres].
    apply String.eqb_eq in Hid. subst tid'.
    cbn [map fst snd].
    destruct (load_items_step self tid m
                (map (fun p => JObj (("id", JStr (fst p))
                                       :: meta_items (snd p))) rest)
                w' tid Hreadd) as [handle ->].
    inversion Hnd as [|? ? Hnotin Hnd']; subst.
    assert (Hnew : ~ In tid (keys (_meta self)))
      by (apply Hfresh; now left).
    set (self1 := snd (_save_state _)).
    assert (Hm1 : _meta self1 = (_meta self ++ [(tid, m)])%list)
      by (subst self1; simpl; now apply dict_set_fresh).
    assert (Ht1 : _torrents self1
                  = (_torrents self ++ [(tid, handle)])%list).
    { subst self1; simpl. apply dict_set_fresh. now rewrite Hkeys. }
    assert (Hf1 : files self1 =
                  {| state_file := Doc (state_doc (_meta self1));
                     legacy_file := legacy_file (files self);
                     state_write := WriteOk;
                     legacy_removable := legacy_removable (files self) |}).
    { subst self1. unfold _save_state, write_state.
      cbn [snd files with_files with_maps with_session _meta].
      rewrite Hw. reflexivity. }
    destruct (IH self1) as (self' & Hload & Hmeta & Hk & Hleg & Hfile).
    + exact Hres.
    + exact Hnd'.
    + intros k Hk. rewrite Hm1, keys_app, in_app_iff. simpl.
      intros [Hin|[E|[]]].
      * apply (Hfresh k); [now right | exact Hin].
      * subst k. exact (Hnotin Hk).
    + now rewrite Hm1, Ht1, !keys_app, Hkeys.
    + now rewrite Hf1.
    + exists self'. split; [exact Hload|].
      assert (Hmeta' : _meta self' = (_meta self ++ (tid, m) :: rest)%list).
      { rewrite Hmeta, Hm1, <- app_assoc. reflexivity. }
      split; [exact Hmeta'|]. split; [exact Hk|].
      split; [now rewrite Hleg, Hf1|].
      rewrite Hfile. destruct rest; [|reflexivity].
      rewrite Hf1. simpl. rewrite Hmeta, app_nil_r. reflexivity.
Qed.

(** C2, as amended.  An object saves its descriptors [m] and a new object
    loads them.  When the write succeeds, loading returns, and the new
    descriptor map is what re-adding the stored descriptors in order gives:
    a descriptor whose source is empty or whose add raises is dropped, a
    re-added one is set at the id the engine assigns.  If the engine
    re-adds every descriptor under its stored id, the new object has the
    same descriptors (id, kind and source, in the same order), tracks each
    of them, and leaves the state file listing them. *)
Theorem save_load_round_trip path w d m :
  state_write d = WriteOk ->
  exists self',
    save_then_load lt path w d m = (Ok tt, self') /\
    _meta self' = reloaded lt path w [] m /\
    (NoDup (keys m) -> restores lt path w m = true ->
     _meta self' = m /\
     keys (_torrents self') = keys m /\
     state_file (files self') = Doc (state_doc m)).
Proof.
  intros Hw.
  unfold save_then_load, _save_state, __init__, _load_state, read_current.
  cbn [snd files with_files]. unfold write_state. rewrite Hw.
  cbn [snd state_file exists_ read_json is_None state_doc andb truthy negb
       get dict_get String.eqb Ascii.eqb Bool.eqb iter].
  set (self0 := with_files _ _).
  destruct (load_items_reloaded m self0) as [Hok Hmeta].
  destruct (load_items lt _ self0) as [r self'] eqn:Hload.
  simpl in Hok, Hmeta. subst r.
  exists self'. split; [reflexivity|]. split; [exact Hmeta|].
  intros Hnd Hres.
  destruct (load_items_restores m self0) as (s' & Hload' & Hm & Hk & _ & Hf);
    try (subst self0; simpl; auto; fail).
  rewrite Hload in Hload'. inversion Hload'; subst s'.
  simpl in Hm. rewrite <- Hm.
  repeat split; auto.
  rewrite Hf. destruct m; [|reflexivity]. now rewrite Hm.
Qed.

End Restore.

Lemma save_load_round_trip_witness :
  exists self',
    save_then_load Stub.engine Scenario.path ["/a.torrent"] Stub.empty_disk
                   Scenario.two_descriptors = (Ok tt, self') /\
    _meta self' = Scenario.two_descriptors.
Proof.
  destruct (save_load_round_trip Stub.engine Scenario.path ["/a.torrent"]
              Stub.empty_disk Scenario.two_descriptors eq_refl)
    as (self' & Hload & _ & Hsame).
  destruct Hsame as (Hmeta & _).
  - repeat constructor; simpl; intuition discriminate.
  - reflexivity.
  - exists self'. split; assumption.
Defined.

(** C2 as stated fails: /a.torrent was added and saved while it was on
    disk; once the torrent file is gone, loading the saved set gives no
    descriptor at all. *)
Lemma save_load_drops_rejected_descriptor :
  _meta Scenario.added_file
    = [(Scenario.id_a, {| kind := "file"; source := JStr "/a.torrent" |})] /\
  state_file (files Scenario.added_file)
    = Doc (state_doc (_meta Scenario.added_file)) /\
  fst (save_then_load Stub.engine Scenario.path []
         (files Scenario.added_file) (_meta Scenario.added_file)) = Ok tt /\
  _meta (snd (save_then_load Stub.engine Scenario.path []
                (files Scenario.added_file) (_meta Scenario.added_file)))
    = [].
Proof. repeat split; reflexivity. Qed.

Section Migration.
Context {W H : Type}.
Variable lt : Lt.engine W H.

(** [migrate] deletes the legacy file only after the current-location file
    holds its contents. *)
Lemma migrate_rewrites_before_delete d :
  legacy_file (snd (migrate d)) <> legacy_file d ->
  legacy_file (snd (migrate d)) = Absent /\
  state_file (snd (migrate d)) = legacy_file d /\
  legacy_file d = Doc (fst (migrate d)).
Proof.
  unfold migrate, write_state, remove_legacy.
  destruct d as [sf lf sw lr]. simpl.
  destruct lf as [| | |j]; simpl; try congruence.
  destruct sw; simpl; try congruence.
  destruct lr; simpl; try congruence. auto.
Qed.

(** C7, as amended.  Only the legacy file exists, it holds the document
    [j], and the current location can be written.  After [__init__]:
    the legacy file is gone when the delete succeeded and is as before
    when the delete failed; the current-location file holds [j] as long as
    no torrent was re-added, and from the first re-add on the descriptors
    re-added so far; if [j] lists the descriptors [m], [__init__] returns
    and the descriptor map is what re-adding them in order gives; if
    moreover the engine re-adds each of them under its stored id, the
    descriptor map is [m] and the current-location file lists [m].  The
    legacy file is only ever deleted after the current-location file holds
    its contents. *)
Theorem legacy_migration path w d j :
  state_file d = Absent ->
  legacy_file d = Doc j ->
  state_write d = WriteOk ->
  legacy_file (files (snd (__init__ lt path w d)))
    = (if legacy_removable d then Absent else Doc j) /\
  (state_file (files (snd (__init__ lt path w d))) = Doc j /\
   _meta (snd (__init__ lt path w d)) = [] \/
   state_file (files (snd (__init__ lt path w d)))
     = Doc (state_doc (_meta (snd (__init__ lt path w d))))) /\
  (forall m,
      j = state_doc m ->
      fst (__init__ lt path w d) = Ok tt /\
      _meta (snd (__init__ lt path w d)) = reloaded lt path w [] m /\
      (NoDup (keys m) -> restores lt path w m = true ->
       _meta (snd (__init__ lt path w d)) = m /\
       keys (_torrents (snd (__init__ lt path w d))) = keys m /\
       state_file (files (snd (__init__ lt path w d)))
         = Doc (state_doc m))) /\
  (forall d0,
      legacy_file (snd (migrate d0)) <> legacy_file d0 ->
      legacy_file (snd (migrate d0)) = Absent /\
      state_file (snd (migrate d0)) = legacy_file d0).
Proof.
  intros Hs Hl Hw.
  set (after := if legacy_removable d then Absent else Doc j).
  set (d2 := {| state_file := Doc j; legacy_file := after;
                state_write := WriteOk;
                legacy_removable := legacy_removable d |}).
  set (self0 := {| download_path := path; _session := w;
                   _torrents := ([] : dict H); _meta := [];
                   files := d2 |}).
  assert (Hinit : __init__ lt path w d =
            if negb (truthy j) then (Ok tt, self0)
            else match get j "torrents" (JArr []) with
                 | Raise e => (Raise e, self0)
                 | Ok torrents =>
                     match iter torrents with
                     | Raise e => (Raise e, self0)
                     | Ok items => load_items lt items self0
                     end
                 end).
  { unfold __init__, _load_state, read_current, migrate, write_state,
      remove_legacy.
    cbn [files]. rewrite Hs, Hl, Hw. cbn [exists_ is_None andb read_json].
    subst self0 d2 after.
    destruct d as [sf lf sw lr]. cbn [legacy_removable legacy_file state_file
                                      state_write snd] in *.
    destruct lr; reflexivity. }
  pose (Q := fun self : TorrentEngine W H =>
               legacy_file (files self) = after /\
               state_write (files self) = WriteOk /\
               (state_file (files self) = Doc j /\ _meta self = [] \/
                state_file (files self) = Doc (state_doc (_meta self)))).
  assert (Q0 : Q self0) by (subst Q self0 d2; simpl; auto).
  assert (Qtrack : forall params m self,
             Q self -> Q (snd (track lt params m self))).
  { intros params m self (Hleg & Hwr & Hfile). unfold track.
    destruct (Lt.add_torrent lt (_session self) params) as [w1 [h|e]];
      subst Q; simpl; [|auto].
    unfold write_state. rewrite Hwr. simpl. auto. }
  assert (Qend : Q (snd (__init__ lt path w d))).
  { rewrite Hinit. destruct (negb (truthy j)); [exact Q0|].
    destruct (get j "torrents" (JArr [])) as [torrents|]; [|exact Q0].
    destruct (iter torrents) as [items|]; [|exact Q0].
    now apply load_items_invariant. }
  destruct Qend as (Hleg & _ & Hfile).
  split; [exact Hleg|]. split; [exact Hfile|]. split.
  - intros m ->. rewrite Hinit.
    cbn [state_doc truthy negb get dict_get String.eqb Ascii.eqb Bool.eqb
         iter].
    destruct (load_items_reloaded lt m self0) as [Hok Hmeta].
    split; [exact Hok|]. split; [exact Hmeta|].
    intros Hnd Hres.
    destruct (load_items_restores lt m self0)
      as (self' & Hload & Hm & Hk & _ & Hf);
      try (subst self0 d2; simpl; auto; fail).
    rewrite Hload. simpl in Hm. cbn [fst snd]. rewrite <- Hm.
    repeat split; auto.
    rewrite Hf. destruct m; [|reflexivity]. now rewrite Hm.
  - intros d0 Hd0.
    destruct (migrate_rewrites_before_delete d0 Hd0) as (Ha & Hb & _).
    auto.
Qed.

End Migration.

Lemma legacy_migration_witness :
  fst (__init__ Stub.engine Scenario.path ["/a.torrent"]
         Scenario.legacy_only) = Ok tt /\
  _meta (snd (__init__ Stub.engine Scenario.path ["/a.torrent"]
                Scenario.legacy_only)) = Scenario.two_descriptors /\
  legacy_file (files (snd (__init__ Stub.engine Scenario.path ["/a.torrent"]
                             Scenario.legacy_only))) = Absent /\
  state_file (files (snd (__init__ Stub.engine Scenario.path ["/a.torrent"]
                            Scenario.legacy_only)))
    = Doc (state_doc Scenario.two_descriptors).
Proof.
  destruct (legacy_migration Stub.engine Scenario.path ["/a.torrent"]
              Scenario.legacy_only (state_doc Scenario.two_descriptors)
              eq_refl eq_refl eq_refl) as (Hleg & _ & Hres & _).
  destruct (Hres Scenario.two_descriptors eq_refl) as (Hok & _ & Hsame).
  destruct Hsame as (Hm & _ & Hf).
  - repeat constructor; simpl; intuition discriminate.
  - reflexivity.
  - repeat split; assumption.
Defined.

(** C7 as stated fails: the legacy file lists two descriptors, the torrent
    file of the first is gone, the magnet is re-added.  After [__init__]
    the legacy file is deleted and the current-location file lists the
    magnet only. *)
Lemma migration_drops_rejected_descriptor :
  let self' :=
    snd (__init__ Stub.engine Scenario.path [] Scenario.legacy_only) in
  state_file Scenario.legacy_only = Absent /\
  legacy_file Scenario.legacy_only = Doc (state_doc Scenario.two_descriptors) /\
  legacy_file (files self') = Absent /\
  state_file (files self')
    = Doc (state_doc [(Scenario.id_abc,
                       {| kind := "magnet";
                          source := JStr Stub.magnet_abc |})]) /\
  state_file (files self') <> Doc (state_doc Scenario.two_descriptors).
Proof.
  simpl. repeat split; try reflexivity. discriminate.
Qed.

(* ****************************************************************** *)
(** * Part III: further properties of the code *)

(* ================================================================== *)
(** * Adding a torrent *)

Lemma dict_get_set_other {V} (d : dict V) k v k' :
  k' <> k -> dict_get k' (dict_set k v d) = dict_get k' d.
Proof.
  intros Hne. induction d as [|[k0 v0] d IH]; simpl.
  - destruct (String.eqb_spec k k'); [congruence | reflexivity].
  - destruct (String.eqb_spec k0 k) as [->|Hk]; simpl.
    + destruct (String.eqb_spec k k'); [congruence | reflexivity].
    + destruct (String.eqb_spec k0 k'); [reflexivity | exact IH].
Qed.

Lemma dict_pop_set_fresh {V} (d : dict V) k v :
  ~ In k (keys d) -> dict_pop k (dict_set k v d) = d.
Proof.
  intros Hfresh. rewrite dict_set_fresh by exact Hfresh.
  unfold dict_pop. rewrite filter_app. simpl. rewrite String.eqb_refl. simpl.
  rewrite app_nil_r. now apply dict_pop_absent.
Qed.

Lemma keys_dict_set_present {V} (d : dict V) k v :
  In k (keys d) -> keys (dict_set k v d) = keys d.
Proof.
  unfold keys. induction d as [|[k0 v0] d IH]; simpl; [tauto|].
  intros Hin. destruct (String.eqb_spec k0 k) as [->|Hk]; simpl.
  - reflexivity.
  - f_equal. apply IH. destruct Hin; [congruence | assumption].
Qed.

Section Adding.
Context {W H : Type}.
Variable lt : Lt.engine W H.

Lemma track_ok params m (self : TorrentEngine W H) tid self1 :
  track lt params m self = (Ok tid, self1) ->
  exists handle,
    Lt.add_torrent lt (_session self) params = (_session self1, Ok handle) /\
    tid = _get_torrent_id lt (_session self1) handle /\
    _torrents self1 = dict_set tid handle (_torrents self) /\
    _meta self1 = dict_set tid m (_meta self) /\
    files self1 = snd (write_state (state_doc (_meta self1)) (files self)) /\
    download_path self1 = download_path self.
Proof.
  unfold track.
  destruct (Lt.add_torrent lt (_session self) params) as [w [handle|e]];
    [|discriminate].
  intros E. inversion E; subst. exists handle. simpl. auto 10.
Qed.

Lemma track_raise params m (self : TorrentEngine W H) e self1 :
  track lt params m self = (Raise e, self1) ->
  _torrents self1 = _torrents self /\ _meta self1 = _meta self /\
  files self1 = files self /\ download_path self1 = download_path self.
Proof.
  unfold track.
  destruct (Lt.add_torrent lt (_session self) params) as [w [handle|e']];
    [discriminate|].
  intros E. inversion E; subst. simpl. auto.
Qed.

Lemma added_track (self : TorrentEngine W H) tid self1 :
  added lt self tid self1 ->
  exists params m, track lt params m self = (Ok tid, self1).
Proof.
  intros [[u Hadd]|(p & fp & Hadd)].
  - unfold add_magnet in Hadd. eauto.
  - unfold add_torrent_file in Hadd.
    destruct (Lt.load_torrent_info lt (_session self) p); [eauto|].
    discriminate.
Qed.

Lemma write_state_ok data d :
  state_write d = WriteOk -> state_file (snd (write_state data d)) = Doc data.
Proof. intros Hw. unfold write_state. now rewrite Hw. Qed.

(** X1.  A magnet add that returns [tid] asked the engine once, with the
    URI and the download path; [tid] is the id of the handle the engine
    gave; afterwards the live map holds that handle and the descriptor
    map the magnet descriptor at [tid], every other id is as before in
    both maps, and if the write succeeds the state file lists exactly the
    descriptor map. *)
Theorem add_magnet_tracks (self : TorrentEngine W H) uri tid self1 :
  add_magnet lt uri self = (Ok tid, self1) ->
  exists handle,
    Lt.add_torrent lt (_session self)
      (Lt.params_url uri (download_path self)) = (_session self1, Ok handle) /\
    tid = _get_torrent_id lt (_session self1) handle /\
    dict_get tid (_torrents self1) = Some handle /\
    dict_get tid (_meta self1) = Some {| kind := "magnet"; source := uri |} /\
    (forall k, k <> tid ->
       dict_get k (_torrents self1) = dict_get k (_torrents self) /\
       dict_get k (_meta self1) = dict_get k (_meta self)) /\
    (state_write (files self) = WriteOk ->
     state_file (files self1) = Doc (state_doc (_meta self1))).
Proof.
  unfold add_magnet. intros Hadd.
  destruct (track_ok _ _ _ _ _ Hadd) as (handle & Hcall & Hid & Ht & Hm & Hf & _).
  exists handle. rewrite Ht, Hm, !dict_get_set_same.
  repeat split; auto.
  - now apply dict_get_set_other.
  - now apply dict_get_set_other.
  - intros Hw. rewrite Hf, Hm. now apply write_state_ok.
Qed.

(** X2.  A torrent-file add that returns [tid] read the torrent file,
    handed its info, the download path and the given priorities to the
    engine, and tracks the handle and a file descriptor with the given
    path at [tid]; every other id is as before, and if the write succeeds
    the state file lists exactly the descriptor map. *)
Theorem add_torrent_file_tracks (self : TorrentEngine W H) p fp tid self1 :
  add_torrent_file lt p fp self = (Ok tid, self1) ->
  exists info handle,
    Lt.load_torrent_info lt (_session self) p = Ok info /\
    Lt.add_torrent lt (_session self)
      (Lt.params_ti info (download_path self) fp)
      = (_session self1, Ok handle) /\
    tid = _get_torrent_id lt (_session self1) handle /\
    dict_get tid (_torrents self1) = Some handle /\
    dict_get tid (_meta self1) = Some {| kind := "file"; source := p |} /\
    (forall k, k <> tid ->
       dict_get k (_torrents self1) = dict_get k (_torrents self) /\
       dict_get k (_meta self1) = dict_get k (_meta self)) /\
    (state_write (files self) = WriteOk ->
     state_file (files self1) = Doc (state_doc (_meta self1))).
Proof.
  unfold add_torrent_file. intros Hadd.
  destruct (Lt.load_torrent_info lt (_session self) p) as [info|];
    [|discriminate].
  destruct (track_ok _ _ _ _ _ Hadd) as (handle & Hcall & Hid & Ht & Hm & Hf & _).
  exists info, handle. rewrite Ht, Hm, !dict_get_set_same.
  repeat split; auto.
  - now apply dict_get_set_other.
  - now apply dict_get_set_other.
  - intros Hw. rewrite Hf, Hm. now apply write_state_ok.
Qed.

(** X3.  An add that raises changes neither map, nor the state files, nor
    the download path; the exception of an unreadable torrent file leaves
    the whole object as it was. *)
Theorem failed_add_changes_nothing (self : TorrentEngine W H) e self1 :
  (exists u, add_magnet lt u self = (Raise e, self1)) \/
  (exists p fp, add_torrent_file lt p fp self = (Raise e, self1)) ->
  _torrents self1 = _torrents self /\ _meta self1 = _meta self /\
  files self1 = files self /\ download_path self1 = download_path self /\
  (forall p fp,
      Lt.load_torrent_info lt (_session self) p = Raise e ->
      add_torrent_file lt p fp self = (Raise e, self)).
Proof.
  intros Hadd.
  assert (Hsame : _torrents self1 = _torrents self /\ _meta self1 = _meta self /\
                  files self1 = files self /\
                  download_path self1 = download_path self).
  { destruct Hadd as [[u Hadd]|(p & fp & Hadd)].
    - unfold add_magnet in Hadd. now apply track_raise in Hadd.
    - unfold add_torrent_file in Hadd.
      destruct (Lt.load_torrent_info lt (_session self) p).
      + now apply track_raise in Hadd.
      + inversion Hadd; subst. auto. }
  destruct Hsame as (Ht & Hm & Hf & Hp). repeat split; auto.
  intros p fp Hload. unfold add_torrent_file. now rewrite Hload.
Qed.

(** X4.  After an add that returned [tid], a status query lists [tid]
    (when the engine gives a status for the new handle and every tracked
    handle answers), and the handle stays tracked. *)
Theorem added_torrent_is_listed (self : TorrentEngine W H) tid self1 s :
  added lt self tid self1 ->
  NoDup (keys (_torrents self)) ->
  (forall handle, dict_get tid (_torrents self1) = Some handle ->
                  Lt.status lt (_session self1) handle = Ok s) ->
  Forall (answers lt (_session self1)) (_torrents self1) ->
  exists result self2,
    get_status_list lt self1 = (Ok result, self2) /\
    In tid (map snap_id result) /\
    In tid (keys (_torrents self2)).
Proof.
  intros Hadded Hnd Hstatus Hans.
  destruct (added_track _ _ _ Hadded) as (params & m & Htrack).
  destruct (track_ok _ _ _ _ _ Htrack) as (handle & _ & _ & Ht & _).
  assert (Hnd1 : NoDup (keys (_torrents self1)))
    by (rewrite Ht; now apply NoDup_keys_dict_set).
  assert (Hget : dict_get tid (_torrents self1) = Some handle)
    by (rewrite Ht; apply dict_get_set_same).
  specialize (Hstatus handle Hget).
  destruct (status_loop_answers lt _ _ Hans) as (result & rm & Hloop & Hrecs).
  destruct (status_loop_shape lt _ _ _ _ Hloop) as [Hrm Hids].
  assert (Hvalid : In (tid, handle)
            (filter (fun e => negb (invalidated lt (_session self1) e))
                    (_torrents self1))).
  { apply filter_In. split; [now apply dict_get_In|].
    unfold invalidated. simpl. now rewrite Hstatus. }
  eexists result, _. unfold get_status_list. rewrite Hloop.
  split; [reflexivity|]. simpl. split.
  - rewrite Hids. unfold keys. change tid with (fst (tid, handle)).
    now apply in_map.
  - rewrite fold_pop_filter. unfold keys.
    change tid with (fst (tid, handle)). apply in_map, filter_In.
    split; [now apply dict_get_In|]. simpl.
    destruct (existsb (String.eqb tid) rm) eqn:Hex; [|reflexivity].
    exfalso. apply existsb_exists in Hex as (k & Hk & Heq).
    apply String.eqb_eq in Heq. subst k. rewrite Hrm in Hk.
    apply In_keys_filter in Hk as (h' & Hh' & Hinv).
    assert (h' = handle)
      by (eapply NoDup_keys_unique; eauto using dict_get_In).
    subst h'. unfold invalidated in Hinv. simpl in Hinv.
    rewrite Hstatus in Hinv. discriminate.
Qed.

End Adding.

Lemma add_magnet_tracks_witness :
  exists handle,
    dict_get Scenario.id_abc (_torrents Scenario.tracked_abc) = Some handle /\
    state_file (files Scenario.tracked_abc)
      = Doc (state_doc (_meta Scenario.tracked_abc)).
Proof.
  destruct (add_magnet_tracks Stub.engine Scenario.fresh
              (JStr Stub.magnet_abc) Scenario.id_abc Scenario.tracked_abc
              eq_refl) as (handle & _ & _ & Hget & _ & _ & Hfile).
  exists handle. split; [exact Hget | exact (Hfile eq_refl)].
Defined.

Lemma add_torrent_file_tracks_witness :
  dict_get Scenario.id_a (_meta Scenario.added_file)
    = Some {| kind := "file"; source := JStr "/a.torrent" |}.
Proof.
  destruct (add_torrent_file_tracks Stub.engine
              (snd (__init__ Stub.engine Scenario.path ["/a.torrent"]
                      Stub.empty_disk))
              (JStr "/a.torrent") None Scenario.id_a Scenario.added_file
              eq_refl) as (info & handle & _ & _ & _ & _ & Hmeta & _).
  exact Hmeta.
Defined.

Lemma failed_add_changes_nothing_witness :
  _meta (snd (add_torrent_file Stub.engine (JStr "/gone.torrent") None
                Scenario.tracked_abc)) = _meta Scenario.tracked_abc.
Proof.
  destruct (failed_add_changes_nothing Stub.engine Scenario.tracked_abc
              RuntimeError
              (snd (add_torrent_file Stub.engine (JStr "/gone.torrent") None
                      Scenario.tracked_abc)))
    as (_ & Hmeta & _).
  - right. exists (JStr "/gone.torrent"), None. reflexivity.
  - exact Hmeta.
Defined.

Lemma added_torrent_is_listed_witness :
  exists result self2,
    get_status_list Stub.engine Scenario.tracked_abc = (Ok result, self2) /\
    In Scenario.id_abc (map snap_id result).
Proof.
  destruct (added_torrent_is_listed Stub.engine Scenario.fresh
              Scenario.id_abc Scenario.tracked_abc Stub.slow_download)
    as (result & self2 & Hget & Hin & _).
  - left. exists (JStr Stub.magnet_abc). reflexivity.
  - constructor.
  - intros handle Hh. inversion Hh. reflexivity.
  - apply Forall_cons; [|constructor].
    right. do 2 eexists. split; reflexivity.
  - exists result, self2. split; assumption.
Defined.

Section AddCompose.
Context {W H : Type}.
Variable lt : Lt.engine W H.

(** X5.  Adding a torrent whose id is new and removing that id again gives
    back both maps as they were before the add. *)
Theorem add_then_remove_restores_maps
    (self : TorrentEngine W H) tid self1 df :
  added lt self tid self1 ->
  ~ In tid (keys (_torrents self)) ->
  ~ In tid (keys (_meta self)) ->
  _torrents (snd (remove lt tid df self1)) = _torrents self /\
  _meta (snd (remove lt tid df self1)) = _meta self.
Proof.
  intros Hadded Hnt Hnm.
  destruct (added_track lt _ _ _ Hadded) as (params & m & Htrack).
  destruct (track_ok lt _ _ _ _ _ Htrack) as (handle & _ & _ & Ht & Hm & _).
  destruct (remove_detaches lt self1 tid df) as (_ & Hrt & Hrm & _).
  rewrite Hrt, Hrm, Ht, Hm. split; now apply dict_pop_set_fresh.
Qed.

(** X6.  Adding a torrent whose id is already in both maps makes no second
    entry: the keys of both maps, and their order, are as before; the new
    handle and descriptor take the place of the old ones. *)
Theorem add_tracked_id_keeps_keys (self : TorrentEngine W H) tid self1 :
  added lt self tid self1 ->
  In tid (keys (_torrents self)) ->
  In tid (keys (_meta self)) ->
  keys (_torrents self1) = keys (_torrents self) /\
  keys (_meta self1) = keys (_meta self).
Proof.
  intros Hadded Hit Him.
  destruct (added_track lt _ _ _ Hadded) as (params & m & Htrack).
  destruct (track_ok lt _ _ _ _ _ Htrack) as (handle & _ & _ & Ht & Hm & _).
  rewrite Ht, Hm. split; now apply keys_dict_set_present.
Qed.

End AddCompose.

Lemma add_then_remove_restores_maps_witness :
  _torrents (snd (remove Stub.engine Scenario.id_abc true
                    Scenario.tracked_abc)) = _torrents Scenario.fresh /\
  _meta (snd (remove Stub.engine Scenario.id_abc true
                Scenario.tracked_abc)) = _meta Scenario.fresh.
Proof.
  apply (add_then_remove_restores_maps Stub.engine Scenario.fresh).
  - left. exists (JStr Stub.magnet_abc). reflexivity.
  - simpl. tauto.
  - simpl. tauto.
Defined.

Lemma add_tracked_id_keeps_keys_witness :
  keys (_torrents (snd (add_magnet Stub.engine (JStr Stub.magnet_abc)
                          Scenario.tracked_abc)))
    = keys (_torrents Scenario.tracked_abc) /\
  keys (_meta (snd (add_magnet Stub.engine (JStr Stub.magnet_abc)
                      Scenario.tracked_abc)))
    = keys (_meta Scenario.tracked_abc).
Proof.
  apply (add_tracked_id_keeps_keys Stub.engine Scenario.tracked_abc
           Scenario.id_abc).
  - left. exists (JStr Stub.magnet_abc). reflexivity.
  - simpl. tauto.
  - simpl. tauto.
Defined.

(* ================================================================== *)
(** * What a call leaves alone *)

Lemma write_state_legacy data d :
  legacy_file (snd (write_state data d)) = legacy_file d /\
  state_write (snd (write_state data d)) = state_write d /\
  legacy_removable (snd (write_state data d)) = legacy_removable d.
Proof. unfold write_state. destruct (state_write d) eqn:Hw; simpl; auto. Qed.

Section Frame.
Context {W H : Type}.
Variable lt : Lt.engine W H.

Lemma track_frame params m (self : TorrentEngine W H) :
  download_path (snd (track lt params m self)) = download_path self /\
  legacy_file (files (snd (track lt params m self)))
    = legacy_file (files self).
Proof.
  unfold track.
  destruct (Lt.add_torrent lt (_session self) params) as [w [handle|e]];
    simpl; split; auto.
  apply write_state_legacy.
Qed.

(** X7.  No call changes the download path or touches the legacy file;
    only the two add methods and [remove] change the descriptor map; a
    status query, [resume] and [remove] never write a state file; [pause]
    and [resume] never change the live map. *)
Theorem calls_frame (c : call) (self : TorrentEngine W H) :
  download_path (run lt c self) = download_path self /\
  legacy_file (files (run lt c self)) = legacy_file (files self) /\
  (match c with
   | AddTorrentFile _ _ | AddMagnet _ | Remove _ _ => True
   | _ => _meta (run lt c self) = _meta self
   end) /\
  (match c with
   | GetStatusList | Resume _ | Remove _ _ => files (run lt c self) = files self
   | _ => True
   end) /\
  (match c with
   | Pause _ | Resume _ => _torrents (run lt c self) = _torrents self
   | _ => True
   end).
Proof.
  destruct c; cbn [run].
  - unfold add_torrent_file.
    destruct (Lt.load_torrent_info lt (_session self) torrent_path);
      [|simpl; auto].
    destruct (track_frame (Lt.params_ti a (download_path self) file_priorities)
                {| kind := "file"; source := torrent_path |} self); auto.
  - unfold add_magnet.
    destruct (track_frame (Lt.params_url magnet_uri (download_path self))
                {| kind := "magnet"; source := magnet_uri |} self); auto.
  - unfold get_status_list.
    destruct (status_loop lt (_session self) (_torrents self))
      as [[result to_remove]|]; simpl; auto.
  - unfold pause.
    destruct (dict_get torrent_id (_torrents self)); simpl;
      repeat split; auto; apply write_state_legacy.
  - unfold resume.
    destruct (dict_get torrent_id (_torrents self)); simpl; auto.
  - destruct (remove_detaches lt self torrent_id delete_files)
      as (_ & _ & _ & Hf).
    rewrite Hf. repeat split; auto.
    unfold remove.
    destruct (dict_get torrent_id (_torrents self)) as [handle|]; simpl; auto.
    destruct (Lt.remove_torrent lt (_session self) handle _) as [w [u|e]];
      reflexivity.
  - unfold close. simpl. repeat split; auto. apply write_state_legacy.
Qed.

End Frame.

(* ================================================================== *)
(** * Close, and starting again *)

Section Restart.
Context {W H : Type}.
Variable lt : Lt.engine W H.

(** Starting from a state file that lists the descriptors [m]. *)
Lemma init_from_saved path w d m :
  state_file d = Doc (state_doc m) ->
  fst (__init__ lt path w d) = Ok tt /\
  _meta (snd (__init__ lt path w d)) = reloaded lt path w [] m.
Proof.
  intros Hs. unfold __init__, _load_state, read_current.
  cbn [files]. rewrite Hs.
  cbn [snd state_file exists_ read_json is_None state_doc andb truthy negb
       get dict_get String.eqb Ascii.eqb Bool.eqb iter].
  set (self0 := with_files _ _).
  destruct (load_items_reloaded lt m self0) as [Hok Hmeta].
  split; [exact Hok | exact Hmeta].
Qed.

Lemma restores_reloaded ds :
  forall path w acc,
    restores lt path w ds = true ->
    NoDup (keys ds) ->
    (forall k, In k (keys ds) -> ~ In k (keys acc)) ->
    reloaded lt path w acc ds = (acc ++ ds)%list.
Proof.
  induction ds as [|[tid m] rest IH]; intros path w acc Hres Hnd Hfresh.
  - simpl. now rewrite app_nil_r.
  - cbn [restores reloaded] in *.
    destruct (readd lt path w m) as [w' [tid'|]]; [|discriminate].
    apply andb_true_iff in Hres as [Hid Hres].
    apply String.eqb_eq in Hid. subst tid'.
    inversion Hnd as [|? ? Hnotin Hnd']; subst.
    rewrite dict_set_fresh by (apply Hfresh; now left).
    rewrite IH; auto.
    + now rewrite <- app_assoc.
    + intros k Hk. rewrite keys_app, in_app_iff. simpl.
      intros [Hin|[E|[]]].
      * apply (Hfresh k); [now right | exact Hin].
      * subst k. exact (Hnotin Hk).
Qed.

(** X8.  [close] returns, pauses the tracked handles in the order of the
    live map, empties the live map and keeps every descriptor; a status
    query on the closed object returns the empty list.  If the write
    succeeds the state file lists the descriptor map, and an object
    started from these files returns from [__init__] with the descriptors
    that re-adding them gives: the same descriptors when the engine
    re-adds each under its stored id. *)
Theorem close_then_restart (self : TorrentEngine W H) path w :
  state_write (files self) = WriteOk ->
  fst (close lt self) = Ok tt /\
  _torrents (snd (close lt self)) = [] /\
  _meta (snd (close lt self)) = _meta self /\
  _session (snd (close lt self))
    = fold_left (fun w h => Lt.pause lt w h) (map snd (_torrents self))
                (_session self) /\
  get_status_list lt (snd (close lt self)) = (Ok [], snd (close lt self)) /\
  state_file (files (snd (close lt self))) = Doc (state_doc (_meta self)) /\
  fst (__init__ lt path w (files (snd (close lt self)))) = Ok tt /\
  _meta (snd (__init__ lt path w (files (snd (close lt self)))))
    = reloaded lt path w [] (_meta self) /\
  (NoDup (keys (_meta self)) -> restores lt path w (_meta self) = true ->
   _meta (snd (__init__ lt path w (files (snd (close lt self)))))
     = _meta self).
Proof.
  intros Hw.
  assert (Hfile : state_file (files (snd (close lt self)))
                  = Doc (state_doc (_meta self)))
    by (unfold close; simpl; now apply write_state_ok).
  destruct (init_from_saved path w _ _ Hfile) as [Hok Hmeta].
  repeat split; auto.
  intros Hnd Hres. rewrite Hmeta.
  rewrite restores_reloaded; auto.
Qed.

(** X9.  A removal that [remove] did not write to disk is written by the
    next [pause] or [close]: if the write succeeds, the state file then
    lists the descriptor map without the removed id. *)
Theorem removal_is_saved_by_next_pause_or_close
    (self : TorrentEngine W H) tid df c :
  c = Close \/ (exists k, c = Pause k) ->
  state_write (files self) = WriteOk ->
  state_file (files (run lt c (run lt (Remove tid df) self)))
    = Doc (state_doc (dict_pop tid (_meta self))) /\
  dict_get tid (_meta (run lt c (run lt (Remove tid df) self))) = None.
Proof.
  intros Hc Hw. cbn [run].
  destruct (remove_detaches lt self tid df) as (_ & _ & Hm & Hf).
  set (self1 := snd (remove lt tid df self)) in *.
  assert (Hw1 : state_write (files self1) = WriteOk) by now rewrite Hf.
  destruct Hc as [->|[k ->]]; cbn [run].
  - unfold close. simpl. rewrite Hm.
    split; [now apply write_state_ok | apply dict_get_pop_same].
  - unfold pause.
    destruct (dict_get k (_torrents self1)); simpl; rewrite Hm;
      (split; [now apply write_state_ok | apply dict_get_pop_same]).
Qed.

Lemma dict_pop_twice {V} (d : dict V) k : dict_pop k (dict_pop k d) = dict_pop k d.
Proof.
  apply dict_pop_absent. rewrite keys_dict_pop. tauto.
Qed.

(** X10.  Removing an id that is not in the live map never calls the
    engine: it only drops the descriptor of that id.  So a second
    [remove] of the same id changes nothing at all. *)
Theorem remove_untracked_id (self : TorrentEngine W H) tid df :
  (dict_get tid (_torrents self) = None ->
   remove lt tid df self =
     (Ok tt,
      {| download_path := download_path self; _session := _session self;
         _torrents := _torrents self; _meta := dict_pop tid (_meta self);
         files := files self |})) /\
  forall df',
    remove lt tid df (snd (remove lt tid df' self))
    = (Ok tt, snd (remove lt tid df' self)).
Proof.
  split.
  - intros Hnone. unfold remove. rewrite Hnone. unfold with_maps. cbn [snd].
    rewrite (dict_pop_absent (_torrents self)); [reflexivity|].
    now apply dict_get_None_keys.
  - intros df'. unfold remove at 1.
    destruct (remove_detaches lt self tid df') as (_ & Ht & Hm & _).
    rewrite Ht, Hm, dict_get_pop_same, !dict_pop_twice.
    rewrite <- Ht, <- Hm. unfold with_maps.
    destruct (snd (remove lt tid df' self)); reflexivity.
Qed.

End Restart.

Lemma close_then_restart_witness :
  _torrents (snd (close Stub.engine Scenario.tracked_abc)) = [] /\
  _meta (snd (__init__ Stub.engine Scenario.path []
                (files (snd (close Stub.engine Scenario.tracked_abc)))))
    = _meta Scenario.tracked_abc.
Proof.
  destruct (close_then_restart Stub.engine Scenario.tracked_abc
              Scenario.path [] eq_refl)
    as (_ & Hlive & _ & _ & _ & _ & _ & _ & Hsame).
  split; [exact Hlive|]. apply Hsame; [|reflexivity].
  repeat constructor; simpl; intuition discriminate.
Defined.

Lemma removal_is_saved_by_next_pause_or_close_witness :
  state_file (files (run Stub.engine (Pause "nope")
                       (run Stub.engine (Remove Scenario.id_abc false)
                            Scenario.tracked_abc)))
    = Doc (state_doc []).
Proof.
  destruct (removal_is_saved_by_next_pause_or_close Stub.engine
              Scenario.tracked_abc Scenario.id_abc false (Pause "nope"))
    as [Hfile _].
  - right. exists "nope". reflexivity.
  - reflexivity.
  - exact Hfile.
Defined.

Lemma remove_untracked_id_witness :
  remove Stub.engine "nope" true Scenario.tracked_abc
    = (Ok tt, Scenario.tracked_abc).
Proof.
  rewrite (proj1 (remove_untracked_id Stub.engine Scenario.tracked_abc
                    "nope" true) eq_refl).
  reflexivity.
Defined.

(* ================================================================== *)
(** * More on the status query *)

Section StatusMore.
Context {W H : Type}.
Variable lt : Lt.engine W H.

Lemma NoDup_keys_filter {V} (f : string * V -> bool) (d : dict V) :
  NoDup (keys d) -> NoDup (keys (filter f d)).
Proof.
  unfold keys. induction d as [|[k v] d IH]; simpl; intros Hn;
    [constructor|].
  inversion Hn as [|? ? Hnotin Hd]; subst.
  destruct (f (k, v)); simpl; [|now apply IH].
  constructor; [|now apply IH].
  intros Hin. apply Hnotin.
  apply in_map_iff in Hin as [[k' v'] [E Hin]]. simpl in E. subst k'.
  apply filter_In in Hin as [Hin _].
  change k with (fst (k, v')). now apply in_map.
Qed.

Lemma get_status_list_live (self : TorrentEngine W H) result self1 :
  get_status_list lt self = (Ok result, self1) ->
  NoDup (keys (_torrents self)) ->
  _torrents self1 =
    filter (fun e => negb (invalidated lt (_session self) e))
           (_torrents self) /\
  _session self1 = _session self /\
  map snap_id result = keys (_torrents self1).
Proof.
  unfold get_status_list.
  destruct (status_loop lt (_session self) (_torrents self))
    as [[r rm]|] eqn:Hloop; [|discriminate].
  intros E Hnd. inversion E; subst. cbn [_torrents _session with_maps].
  destruct (status_loop_shape lt _ _ _ _ Hloop) as [Hrm Hids].
  assert (Hlive :
    fold_left (fun t tid => dict_pop tid t) rm (_torrents self)
    = filter (fun e => negb (invalidated lt (_session self) e))
             (_torrents self)).
  { rewrite fold_pop_filter, Hrm. apply filter_ext_in. intros e He.
    now rewrite existsb_keys_filter. }
  rewrite Hlive, Hids. auto.
Qed.

Lemma get_status_list_rest (self : TorrentEngine W H) result self1 :
  get_status_list lt self = (Ok result, self1) ->
  self1 = {| download_path := download_path self; _session := _session self;
             _torrents := _torrents self1; _meta := _meta self;
             files := files self |}.
Proof.
  unfold get_status_list.
  destruct (status_loop lt (_session self) (_torrents self))
    as [[r rm]|]; [|discriminate].
  intros E. inversion E; subst. reflexivity.
Qed.

Lemma filter_all {A} (f : A -> bool) (l : list A) :
  forallb f l = true -> filter f l = l.
Proof.
  induction l as [|a l IH]; [reflexivity|]. simpl.
  intros Hall. apply andb_true_iff in Hall as [Ha Hl].
  rewrite Ha. f_equal. now apply IH.
Qed.

(** X11.  A status query that returns gives one record per tracked handle
    that the engine did not report invalid, in the order of the live map
    and with the id of the entry; these are exactly the entries that stay
    tracked, no id is listed twice, and when no handle is invalid the
    object is left as it was. *)
Theorem status_query_lists_live_entries
    (self : TorrentEngine W H) result self1 :
  get_status_list lt self = (Ok result, self1) ->
  NoDup (keys (_torrents self)) ->
  map snap_id result = keys (_torrents self1) /\
  _torrents self1 =
    filter (fun e => negb (invalidated lt (_session self) e))
           (_torrents self) /\
  NoDup (map snap_id result) /\
  (forallb (fun e => negb (invalidated lt (_session self) e))
           (_torrents self) = true -> self1 = self).
Proof.
  intros Hget Hnd.
  destruct (get_status_list_live self result self1 Hget Hnd)
    as (Hlive & Hsess & Hids).
  repeat split; auto.
  - rewrite Hids, Hlive. now apply NoDup_keys_filter.
  - intros Hall. rewrite (get_status_list_rest _ _ _ Hget).
    rewrite Hlive, filter_all by exact Hall. destruct self; reflexivity.
Qed.

Lemma status_loop_filter_valid w items :
  forall r rm,
    status_loop lt w items = Ok (r, rm) ->
    status_loop lt w (filter (fun e => negb (invalidated lt w e)) items)
    = Ok (r, []).
Proof.
  induction items as [|[tid handle] rest IH]; simpl; intros r rm.
  - intros E. inversion E. reflexivity.
  - destruct (Lt.status lt w handle) as [s|e] eqn:Hst.
    + assert (Hv : invalidated lt w (tid, handle) = false)
        by (unfold invalidated; simpl; now rewrite Hst).
      rewrite Hv. cbn [negb status_loop]. rewrite Hst.
      destruct (reconcile tid s _ _) as [snap|]; [|discriminate].
      destruct (status_loop lt w rest) as [[r' rm']|]; [|discriminate].
      intros E. inversion E; subst. now rewrite (IH r' rm).
    + destruct e; try discriminate.
      assert (Hv : invalidated lt w (tid, handle) = true)
        by (unfold invalidated; simpl; now rewrite Hst).
      rewrite Hv. cbn [negb].
      destruct (status_loop lt w rest) as [[r' rm']|]; [|discriminate].
      intros E. inversion E; subst. now apply (IH r rm').
Qed.

(** X12.  Asking again changes nothing: a second status query in the same
    session state returns the same records as the first and leaves the
    object as the first query left it (nothing more is evicted). *)
Theorem status_query_twice (self : TorrentEngine W H) result self1 :
  get_status_list lt self = (Ok result, self1) ->
  NoDup (keys (_torrents self)) ->
  get_status_list lt self1 = (Ok result, self1).
Proof.
  intros Hget Hnd.
  destruct (get_status_list_live self result self1 Hget Hnd)
    as (Hlive & Hsess & _).
  assert (Hloop1 : status_loop lt (_session self1) (_torrents self1)
                   = Ok (result, [])).
  { rewrite Hsess, Hlive. unfold get_status_list in Hget.
    destruct (status_loop lt (_session self) (_torrents self))
      as [[r rm]|] eqn:Hloop; [|discriminate].
    inversion Hget; subst. eapply status_loop_filter_valid. exact Hloop. }
  unfold get_status_list. rewrite Hloop1. cbn [fold_left].
  unfold with_maps. destruct self1; reflexivity.
Qed.

End StatusMore.

Lemma status_query_lists_live_entries_witness :
  exists result self1,
    get_status_list Stub.engine Scenario.with_stale = (Ok result, self1) /\
    map snap_id result = keys (_torrents self1) /\
    keys (_torrents self1) = [Scenario.id_abc].
Proof.
  do 2 eexists. split; [reflexivity|]. split; [|reflexivity].
  apply (status_query_lists_live_entries Stub.engine Scenario.with_stale
           _ _ eq_refl).
  repeat constructor; simpl; intuition discriminate.
Defined.

Lemma status_query_twice_witness :
  exists result self1,
    get_status_list Stub.engine Scenario.with_stale = (Ok result, self1) /\
    get_status_list Stub.engine self1 = (Ok result, self1).
Proof.
  do 2 eexists. split; [reflexivity|].
  apply (status_query_twice Stub.engine Scenario.with_stale _ _ eq_refl).
  repeat constructor; simpl; intuition discriminate.
Defined.

(* ================================================================== *)
(** * More on the status record *)

Lemma raw_state_name_cases raw :
  In (raw_state_name raw) ("Unknown" :: state_names).
Proof.
  rewrite raw_state_name_spec.
  destruct (raw_state_of raw) as [[]|]; simpl; auto 10.
Qed.

(** X13.  The name of a status record is never empty: it is the name the
    status carries when that is not empty, else the name of the torrent
    info when there is one and it is not empty, else the placeholder
    ["(metadata...)"]. *)
Theorem snapshot_name_never_empty tid s info prios snap :
  reconcile tid s info prios = Ok snap ->
  snap_name snap <> "" /\
  (getattr (Lt.name s) "" <> "" -> snap_name snap = getattr (Lt.name s) "") /\
  (getattr (Lt.name s) "" = "" ->
   snap_name snap =
     match info with
     | Some ti => if String.eqb (Lt.ti_name ti) "" then "(metadata...)"
                  else Lt.ti_name ti
     | None => "(metadata...)"
     end).
Proof.
  unfold reconcile.
  destruct (eta_sec _ _ _) as [eta|]; [|discriminate].
  intros E. inversion E; subst; clear E. cbn [snap_name].
  unfold display_name.
  destruct (String.eqb (getattr (Lt.name s) "") "") eqn:Hn.
  - apply String.eqb_eq in Hn. destruct info as [ti|].
    + destruct (String.eqb (Lt.ti_name ti) "") eqn:Hi.
      * split; [discriminate|]. split; [tauto | reflexivity].
      * split; [now apply String.eqb_neq|]. split; [tauto | reflexivity].
    + split; [discriminate|]. split; [tauto | reflexivity].
  - rewrite Hn. apply String.eqb_neq in Hn.
    split; [exact Hn|]. split; [reflexivity | tauto].
Qed.

Lemma snapshot_name_never_empty_witness :
  exists snap,
    reconcile "t" Magnet.no_metadata None None = Ok snap /\
    snap_name snap = "(metadata...)" /\ snap_eta snap = -1.
Proof.
  eexists. split; [reflexivity|]. split; [|reflexivity].
  apply (snapshot_name_never_empty "t" Magnet.no_metadata None None _
           eq_refl).
  reflexivity.
Defined.

(** X14.  The state label and the two flags of a status record agree: the
    label is "Paused" exactly when the record is flagged paused; a record
    that is flagged seeding and not paused is labelled "Seeding"; and
    "Resuming" is only shown for a record that is neither paused nor
    seeding, with a progress strictly between 0 and 1. *)
Theorem snapshot_label_matches_flags tid s info prios snap :
  reconcile tid s info prios = Ok snap ->
  (snap_state snap = "Paused" <-> snap_is_paused snap = true) /\
  (snap_is_paused snap = false -> snap_is_seeding snap = true ->
   snap_state snap = "Seeding") /\
  (snap_state snap = "Resuming" ->
   snap_is_paused snap = false /\ snap_is_seeding snap = false /\
   flt f_zero (snap_progress snap) = true /\
   flt (snap_progress snap) f_one = true /\
   flt (snap_download_rate snap) f_51200 = true).
Proof.
  unfold reconcile.
  destruct (eta_sec _ _ _) as [eta|]; [|discriminate].
  intros E. inversion E; subst; clear E.
  cbn [snap_state snap_is_paused snap_is_seeding snap_progress
       snap_download_rate].
  unfold display_state.
  assert (Hraw : raw_state_name (Lt.state s) <> "Paused" /\
                 raw_state_name (Lt.state s) <> "Resuming").
  { rewrite raw_state_name_spec.
    destruct (raw_state_of (Lt.state s)) as [[]|]; split; discriminate. }
  destruct Hraw as [HnP HnR].
  destruct (getattr (Lt.paused s) false).
  { split; [split; reflexivity|]. split; easy. }
  destruct (getattr (Lt.is_seeding s) false).
  { split; [split; easy|]. split; easy. }
  destruct (flt f_zero (getattr (Lt.progress s) f_zero)
            && flt (getattr (Lt.progress s) f_zero) f_one
            && flt (getattr (Lt.download_rate s) f_zero) f_51200) eqn:Hc.
  - apply andb_true_iff in Hc as [Hc H3].
    apply andb_true_iff in Hc as [H1 H2].
    split; [split; easy|]. split; [easy|]. intros _. auto.
  - split; [split; [intros Hl; contradiction | easy]|].
    split; [easy|]. intros Hl. contradiction.
Qed.

Lemma snapshot_label_matches_flags_witness :
  exists snap,
    reconcile "t" Stub.slow_download None None = Ok snap /\
    snap_is_paused snap = false /\ snap_state snap <> "Paused".
Proof.
  eexists. split; [reflexivity|]. split; [reflexivity|].
  intros Hlabel.
  apply (snapshot_label_matches_flags "t" Stub.slow_download None None _
           eq_refl) in Hlabel.
  discriminate Hlabel.
Defined.

(** X15.  The eta of a status record is [-1] or not negative, and it is
    [-1] exactly when the download rate is not positive or nothing
    remains to download. *)
Theorem snapshot_eta_range tid s info prios snap :
  reconcile tid s info prios = Ok snap ->
  (snap_eta snap = -1 \/ 0 <= snap_eta snap) /\
  (snap_eta snap = -1 <->
   flt f_zero (snap_download_rate snap) = false \/
   snap_total_size snap <= snap_downloaded snap).
Proof.
  unfold reconcile.
  destruct (eta_sec _ _ _) as [eta|] eqn:Heta; [|discriminate].
  intros E. inversion E; subst; clear E.
  cbn [snap_eta snap_download_rate snap_total_size snap_downloaded].
  rewrite eta_sec_cases in Heta.
  set (total := effective_total_size _ _ _) in *.
  set (done := getattr (Lt.total_done s) 0) in *.
  set (rate := getattr (Lt.download_rate s) f_zero) in *.
  destruct (flt f_zero rate) eqn:Hrate; cbn [andb] in Heta.
  - destruct (Z.gtb_spec (Z.max 0 (total - done)) 0) as [Hrem|Hrem].
    + unfold int_truediv_float in Heta.
      destruct (float_of_int (Z.max 0 (total - done))) as [a|] eqn:Ha;
        [|discriminate].
      assert (Hpos : 0 < Z.max 0 (total - done)) by lia.
      destruct (float_of_int_sign _ _ Hpos Ha) as [Hs Hf].
      pose proof (SFdiv_sign a rate Hs Hf Hrate) as Hq.
      destruct (is_finite (SFdiv prec emax a rate)); [|discriminate].
      inversion Heta; subst eta.
      pose proof (float_floor_nonneg _ Hq).
      split; [right; assumption|].
      split; [lia | intros [Hc|Hc]; [discriminate | lia]].
    + inversion Heta; subst eta.
      split; [now left|]. split; [intros _; right; lia | reflexivity].
  - inversion Heta; subst eta.
    split; [now left|]. split; [intros _; now left | reflexivity].
Qed.

Lemma snapshot_eta_range_witness :
  exists snap,
    reconcile "t" Magnet.no_metadata None None = Ok snap /\
    (snap_eta snap = -1 \/ 0 <= snap_eta snap).
Proof.
  eexists. split; [reflexivity|].
  apply (snapshot_eta_range "t" Magnet.no_metadata None None _ eq_refl).
Defined.

(* ================================================================== *)
(** * More on loading *)

Section LoadMore.
Context {W H : Type}.
Variable lt : Lt.engine W H.

Lemma fst_ok_tt (r : res unit) : is_ok r = true -> r = Ok tt.
Proof. destruct r as [[]|]; [reflexivity | discriminate]. Qed.

(** The loop returns exactly when every item is an object. *)
Lemma load_items_returns_iff items :
  forall self : TorrentEngine W H,
    fst (load_items lt items self) = Ok tt <->
    forallb is_object items = true.
Proof.
  induction items as [|item rest IH]; intros self; cbn [load_items forallb].
  - split; reflexivity.
  - destruct item; cbn [get is_object andb fst];
      try (split; discriminate).
    destruct (negb (truthy _) || negb (truthy _)); [apply IH|].
    destruct (eq_str _ "file"); [apply IH|].
    destruct (eq_str _ "magnet"); apply IH.
Qed.

(** X16.  [__init__] returns normally exactly when the document it loads
    is [loadable]: empty in the sense of [not data], or an object whose
    ["torrents"] member (an empty list when missing) can be iterated and
    yields objects only.  The document is the one in the current-location
    file when that is not [null]; otherwise the one migrated from the
    legacy file. *)
Theorem load_returns_iff_loadable path w d j :
  (state_file d = Doc j /\ is_None j = false) \/
  (read_current d = JNull /\ legacy_file d = Doc j /\
   state_write d = WriteOk) ->
  (fst (__init__ lt path w d) = Ok tt <-> loadable j = true).
Proof.
  intros Hdoc.
  assert (Hinit : exists d',
    __init__ lt path w d =
      let self := {| download_path := path; _session := w;
                     _torrents := ([] : dict H); _meta := [];
                     files := d' |} in
      if negb (truthy j) then (Ok tt, self)
      else match get j "torrents" (JArr []) with
           | Raise e => (Raise e, self)
           | Ok torrents =>
               match iter torrents with
               | Raise e => (Raise e, self)
               | Ok items => load_items lt items self
               end
           end).
  { unfold __init__, _load_state. cbn [files].
    destruct Hdoc as [[Hs Hnull]|(Hcur & Hl & Hw)].
    - exists d. unfold read_current. rewrite Hs.
      cbn [exists_ read_json]. rewrite Hnull. cbn [andb].
      destruct d; reflexivity.
    - rewrite Hcur. cbn [is_None andb]. rewrite Hl. cbn [exists_].
      unfold migrate, write_state. rewrite Hl, Hw. cbn [read_json].
      eexists. reflexivity. }
  destruct Hinit as [d' ->]. cbn zeta. unfold loadable.
  destruct (negb (truthy j)); cbn [orb fst]; [split; reflexivity|].
  destruct (get j "torrents" (JArr [])) as [torrents|];
    [|split; discriminate].
  destruct (iter torrents) as [items|]; [|split; discriminate].
  apply load_items_returns_iff.
Qed.

(** X17.  Items without a usable kind or source, or of a kind other than
    file and magnet, are passed over: a loop over such items returns and
    leaves the object, the engine session and the files exactly as they
    were. *)
Theorem load_skips_unusable_items items (self : TorrentEngine W H) :
  forallb skipped items = true ->
  load_items lt items self = (Ok tt, self).
Proof.
  induction items as [|item rest IH]; cbn [forallb load_items];
    [reflexivity|].
  intros Hall. apply andb_true_iff in Hall as [Hitem Hrest].
  unfold skipped in Hitem.
  destruct (get item "kind" JNull) as [k|]; [|discriminate].
  destruct (get item "source" JNull) as [s|]; [|discriminate].
  destruct (negb (truthy k) || negb (truthy s)); [now apply IH|].
  cbn [orb] in Hitem. apply andb_true_iff in Hitem as [Hf Hm].
  apply negb_true_iff in Hf, Hm. rewrite Hf, Hm. now apply IH.
Qed.

(** [on_legacy] commutes with everything the loop does. *)
Lemma track_on_legacy l params m (self : TorrentEngine W H) :
  track lt params m (on_legacy l self) =
  (fst (track lt params m self), on_legacy l (snd (track lt params m self))).
Proof.
  unfold track. cbn [_session on_legacy].
  destruct (Lt.add_torrent lt (_session self) params) as [w [handle|e]];
    [|reflexivity].
  cbn [fst snd]. unfold _save_state, on_legacy, with_files, with_maps,
    with_session, write_state, with_legacy. cbn.
  destruct (files self) as [sf lf sw lr]. cbn. destruct sw; reflexivity.
Qed.

Lemma load_items_on_legacy l items :
  forall self : TorrentEngine W H,
    load_items lt items (on_legacy l self) =
    (fst (load_items lt items self),
     on_legacy l (snd (load_items lt items self))).
Proof.
  induction items as [|item rest IH]; intros self; cbn [load_items];
    [reflexivity|].
  destruct (get item "kind" JNull) as [k|]; [|reflexivity].
  destruct (get item "source" JNull) as [s|]; [|reflexivity].
  destruct (negb (truthy k) || negb (truthy s)); [apply IH|].
  destruct (eq_str k "file").
  { unfold add_torrent_file. cbn [_session on_legacy download_path].
    destruct (Lt.load_torrent_info lt (_session self) s) as [info|].
    - change (download_path self) with (download_path (on_legacy l self)).
      rewrite track_on_legacy. cbn [snd]. apply IH.
    - cbn [snd]. apply IH. }
  destruct (eq_str k "magnet"); [|apply IH].
  unfold add_magnet.
  change (download_path (on_legacy l self)) with (download_path self).
  rewrite track_on_legacy. cbn [snd]. apply IH.
Qed.

(** X18.  The current-location file wins: when it holds a document other
    than [null], [__init__] neither reads nor changes the legacy file.
    Whatever the legacy file is, the outcome, both maps, the session and
    the current-location file are the same, and the legacy file is left
    as it was. *)
Theorem current_file_takes_precedence path w d j l :
  state_file d = Doc j -> is_None j = false ->
  __init__ lt path w (with_legacy l d) =
    (fst (__init__ lt path w d), on_legacy l (snd (__init__ lt path w d))) /\
  legacy_file (files (snd (__init__ lt path w (with_legacy l d)))) = l.
Proof.
  intros Hs Hnull.
  assert (Heq : __init__ lt path w (with_legacy l d) =
    (fst (__init__ lt path w d), on_legacy l (snd (__init__ lt path w d)))).
  { unfold __init__, _load_state, read_current. cbn [files with_legacy
      state_file]. rewrite Hs. cbn [exists_ read_json]. rewrite Hnull.
    cbn [andb].
    set (self0 := {| download_path := path; _session := w;
                     _torrents := ([] : dict H); _meta := [];
                     files := d |}).
    change (with_files (with_legacy l d)
              {| download_path := path; _session := w;
                 _torrents := ([] : dict H); _meta := [];
                 files := with_legacy l d |})
      with (on_legacy l self0).
    replace (with_files d self0) with self0 by reflexivity.
    destruct (negb (truthy j)); [reflexivity|].
    destruct (get j "torrents" (JArr [])) as [torrents|]; [|reflexivity].
    destruct (iter torrents) as [items|]; [|reflexivity].
    apply load_items_on_legacy. }
  split; [exact Heq|]. rewrite Heq. reflexivity.
Qed.

(** A malformed current-location file is passed over like a missing
    one: everything the loader does keeps two such objects [alike]. *)
Lemma write_state_alike data d1 d2 :
  torn_for_absent d1 d2 ->
  fst (write_state data d1) = fst (write_state data d2) /\
  torn_for_absent (snd (write_state data d1)) (snd (write_state data d2)).
Proof.
  destruct d1 as [sf1 lf1 sw1 lr1], d2 as [sf2 lf2 sw2 lr2].
  unfold torn_for_absent, write_state. cbn.
  intros (-> & -> & -> & Hs). destruct sw2; cbn; auto 6.
Qed.

Lemma remove_legacy_alike d1 d2 :
  torn_for_absent d1 d2 ->
  torn_for_absent (snd (remove_legacy d1)) (snd (remove_legacy d2)).
Proof.
  destruct d1 as [sf1 lf1 sw1 lr1], d2 as [sf2 lf2 sw2 lr2].
  unfold torn_for_absent, remove_legacy. cbn.
  intros (-> & -> & -> & Hs). destruct lr2; cbn; auto 6.
Qed.

Lemma migrate_alike d1 d2 :
  torn_for_absent d1 d2 ->
  fst (migrate d1) = fst (migrate d2) /\
  torn_for_absent (snd (migrate d1)) (snd (migrate d2)).
Proof.
  intros Hd. unfold migrate.
  assert (Hl : legacy_file d1 = legacy_file d2) by apply Hd.
  rewrite Hl. destruct (read_json (legacy_file d2)) as [data|]; [|auto].
  destruct (write_state_alike data d1 d2 Hd) as [Hf Hs].
  destruct (write_state data d1) as [r1 d1'], (write_state data d2) as [r2 d2'].
  cbn [fst snd] in Hf, Hs. subst r2.
  destruct r1; cbn [fst snd]; [|auto].
  split; [reflexivity | now apply remove_legacy_alike].
Qed.

Lemma track_alike params m (s1 s2 : TorrentEngine W H) :
  alike s1 s2 ->
  fst (track lt params m s1) = fst (track lt params m s2) /\
  alike (snd (track lt params m s1)) (snd (track lt params m s2)).
Proof.
  destruct s1 as [p1 w1 t1 m1 d1], s2 as [p2 w2 t2 m2 d2].
  unfold alike. cbn. intros (-> & -> & -> & -> & Hd).
  unfold track. cbn.
  destruct (Lt.add_torrent lt w2 params) as [w' [handle|e]]; cbn.
  - split; [reflexivity|]. repeat (split; [reflexivity|]).
    now apply write_state_alike.
  - repeat (split; [reflexivity|]). exact Hd.
Qed.

Lemma load_items_alike items :
  forall s1 s2 : TorrentEngine W H,
    alike s1 s2 ->
    fst (load_items lt items s1) = fst (load_items lt items s2) /\
    alike (snd (load_items lt items s1)) (snd (load_items lt items s2)).
Proof.
  induction items as [|item rest IH]; intros s1 s2 Ha; cbn [load_items];
    [auto|].
  destruct (get item "kind" JNull) as [k|]; [|auto].
  destruct (get item "source" JNull) as [s|]; [|auto].
  destruct (negb (truthy k) || negb (truthy s)); [now apply IH|].
  assert (Hp : download_path s1 = download_path s2) by apply Ha.
  assert (Hw : _session s1 = _session s2) by apply Ha.
  destruct (eq_str k "file").
  { unfold add_torrent_file. rewrite Hp, Hw.
    destruct (Lt.load_torrent_info lt (_session s2) s) as [info|];
      cbn [snd]; apply IH; [|exact Ha].
    now apply track_alike. }
  destruct (eq_str k "magnet"); [|now apply IH].
  unfold add_magnet. rewrite Hp. apply IH. now apply track_alike.
Qed.

Lemma load_state_alike (s1 s2 : TorrentEngine W H) :
  alike s1 s2 ->
  read_current (files s1) = JNull -> read_current (files s2) = JNull ->
  fst (_load_state lt s1) = fst (_load_state lt s2) /\
  alike (snd (_load_state lt s1)) (snd (_load_state lt s2)).
Proof.
  intros Ha H1 H2. unfold _load_state. rewrite H1, H2. cbn [is_None andb].
  assert (Hd : torn_for_absent (files s1) (files s2)) by apply Ha.
  assert (Hl : legacy_file (files s1) = legacy_file (files s2)) by apply Hd.
  rewrite Hl.
  assert (Hm : exists data e1 e2,
             (if exists_ (legacy_file (files s2)) then migrate (files s1)
              else (JNull, files s1)) = (data, e1) /\
             (if exists_ (legacy_file (files s2)) then migrate (files s2)
              else (JNull, files s2)) = (data, e2) /\
             torn_for_absent e1 e2).
  { destruct (exists_ (legacy_file (files s2))).
    - destruct (migrate_alike _ _ Hd) as [Hf Hs].
      destruct (migrate (files s1)) as [j1 e1], (migrate (files s2)) as [j2 e2].
      cbn [fst snd] in Hf, Hs. subst j2. now exists j1, e1, e2.
    - now exists JNull, (files s1), (files s2). }
  destruct Hm as (data & e1 & e2 & -> & -> & He).
  assert (Ha' : alike (with_files e1 s1) (with_files e2 s2)).
  { destruct Ha as (A1 & A2 & A3 & A4 & _). repeat split; assumption || apply He. }
  destruct (negb (truthy data)); [auto|].
  destruct (get data "torrents" (JArr [])) as [torrents|]; [|auto].
  destruct (iter torrents) as [items|]; [|auto].
  now apply load_items_alike.
Qed.

(** X19.  A write that fails half-way leaves a malformed state file and
    the legacy file as it was.  The next start passes that state file over
    like a missing one, whatever the disk then does on a write and
    whatever the legacy file holds: the outcome, both maps, the session
    and the legacy file are those of a start with no state file at all.
    So the start returns with both maps empty and leaves the files alone
    when there is no legacy document; and it returns with both maps empty
    and keeps the legacy file when writes still fail half-way. *)
Theorem torn_write_is_tolerated (self : TorrentEngine W H) path w d :
  state_write (files self) = WriteTorn ->
  state_file d = state_file (files (snd (_save_state self))) ->
  state_file d = Malformed /\
  legacy_file (files (snd (_save_state self))) = legacy_file (files self) /\
  (fst (__init__ lt path w d) = fst (__init__ lt path w (without_state d)) /\
   _torrents (snd (__init__ lt path w d))
     = _torrents (snd (__init__ lt path w (without_state d))) /\
   _meta (snd (__init__ lt path w d))
     = _meta (snd (__init__ lt path w (without_state d))) /\
   _session (snd (__init__ lt path w d))
     = _session (snd (__init__ lt path w (without_state d))) /\
   legacy_file (files (snd (__init__ lt path w d)))
     = legacy_file (files (snd (__init__ lt path w (without_state d))))) /\
  ((forall j, legacy_file d <> Doc j) ->
   fst (__init__ lt path w d) = Ok tt /\
   _torrents (snd (__init__ lt path w d)) = [] /\
   _meta (snd (__init__ lt path w d)) = [] /\
   files (snd (__init__ lt path w d)) = d) /\
  (state_write d = WriteTorn ->
   fst (__init__ lt path w d) = Ok tt /\
   _torrents (snd (__init__ lt path w d)) = [] /\
   _meta (snd (__init__ lt path w d)) = [] /\
   legacy_file (files (snd (__init__ lt path w d))) = legacy_file d).
Proof.
  intros Hw Hd.
  assert (Hmal : state_file d = Malformed).
  { rewrite Hd. unfold _save_state, write_state. now rewrite Hw. }
  split; [exact Hmal|].
  split; [unfold _save_state, write_state; now rewrite Hw|].
  split; [|split].
  - set (s1 := {| download_path := path; _session := w;
                  _torrents := ([] : dict H); _meta := []; files := d |}).
    set (s2 := {| download_path := path; _session := w;
                  _torrents := ([] : dict H); _meta := [];
                  files := without_state d |}).
    assert (Ha : alike s1 s2).
    { unfold alike, torn_for_absent, s1, s2, without_state. cbn.
      repeat split. now right. }
    destruct (load_state_alike s1 s2 Ha) as (Hf & _ & Hs & Ht & Hm & Hl & _).
    + unfold read_current, s1. cbn [files]. now rewrite Hmal.
    + reflexivity.
    + unfold __init__. fold s1 s2. auto.
  - intros Hleg. apply load_without_document; [|exact Hleg].
    intros j. rewrite Hmal. discriminate.
  - intros Hwd. destruct d as [sf lf sw lr]. cbn in Hmal, Hwd. subst sf sw.
    unfold __init__, _load_state, read_current, migrate, write_state.
    cbn [files state_file legacy_file state_write exists_ read_json is_None
         andb].
    destruct lf as [| | |j]; cbn; auto.
Qed.

End LoadMore.

Lemma load_returns_iff_loadable_witness :
  fst (__init__ Stub.engine Scenario.path [] Documents.current_lists_abc)
    = Ok tt.
Proof.
  apply (load_returns_iff_loadable Stub.engine Scenario.path []
           Documents.current_lists_abc
           (state_doc [(Scenario.id_abc,
                        {| kind := "magnet";
                           source := JStr Stub.magnet_abc |})])).
  - left. split; reflexivity.
  - reflexivity.
Defined.

Lemma load_skips_unusable_items_witness :
  load_items Stub.engine Documents.unusable_items Scenario.tracked_abc
    = (Ok tt, Scenario.tracked_abc).
Proof.
  apply (load_skips_unusable_items Stub.engine). reflexivity.
Defined.

Lemma current_file_takes_precedence_witness :
  legacy_file
    (files (snd (__init__ Stub.engine Scenario.path []
                   (with_legacy (Doc (state_doc Scenario.two_descriptors))
                                Documents.current_lists_abc))))
    = Doc (state_doc Scenario.two_descriptors).
Proof.
  apply (current_file_takes_precedence Stub.engine Scenario.path []
           Documents.current_lists_abc
           (state_doc [(Scenario.id_abc,
                        {| kind := "magnet";
                           source := JStr Stub.magnet_abc |})]));
    reflexivity.
Defined.

Lemma torn_write_is_tolerated_witness :
  state_write (files Documents.torn) = WriteTorn /\
  fst (__init__ Stub.engine Scenario.path [] healed_after_torn) = Ok tt /\
  _meta (snd (__init__ Stub.engine Scenario.path [] healed_after_torn))
    = _meta (snd (__init__ Stub.engine Scenario.path []
                    (without_state healed_after_torn))) /\
  _meta (snd (__init__ Stub.engine Scenario.path [] healed_after_torn))
    <> [].
Proof.
  destruct (torn_write_is_tolerated Stub.engine Documents.torn
              Scenario.path [] healed_after_torn eq_refl eq_refl)
    as (_ & _ & (Hf & _ & Hm & _) & _).
  split; [reflexivity|]. split; [rewrite Hf; reflexivity|].
  split; [exact Hm|]. rewrite Hm. discriminate.
Defined.

(* ================================================================== *)
(** * The kinds of the descriptors *)

Section Kinds.
Context {W H : Type}.
Variable lt : Lt.engine W H.

Lemma kinds_known_set m tid d :
  kinds_known m -> kind d = "file" \/ kind d = "magnet" ->
  kinds_known (dict_set tid d m).
Proof.
  unfold kinds_known. intros Hm Hd.
  induction m as [|[k v] m IH]; simpl.
  - constructor; [exact Hd | constructor].
  - inversion Hm; subst.
    destruct (String.eqb k tid); constructor; auto.
Qed.

Lemma kinds_known_pop m tid : kinds_known m -> kinds_known (dict_pop tid m).
Proof.
  unfold kinds_known, dict_pop. intros Hm.
  apply Forall_forall. intros p Hp. apply filter_In in Hp as [Hp _].
  revert p Hp. now apply Forall_forall.
Qed.

Lemma kinds_track params d (self : TorrentEngine W H) :
  kinds_known (_meta self) -> kind d = "file" \/ kind d = "magnet" ->
  kinds_known (_meta (snd (track lt params d self))).
Proof.
  intros Hm Hd. unfold track.
  destruct (Lt.add_torrent lt (_session self) params) as [w [handle|e]];
    simpl; [now apply kinds_known_set | exact Hm].
Qed.

Lemma kinds_add_torrent_file p fp (self : TorrentEngine W H) :
  kinds_known (_meta self) ->
  kinds_known (_meta (snd (add_torrent_file lt p fp self))).
Proof.
  intros Hm. unfold add_torrent_file.
  destruct (Lt.load_torrent_info lt (_session self) p); [|exact Hm].
  apply kinds_track; [exact Hm | now left].
Qed.

Lemma kinds_add_magnet u (self : TorrentEngine W H) :
  kinds_known (_meta self) ->
  kinds_known (_meta (snd (add_magnet lt u self))).
Proof.
  intros Hm. unfold add_magnet. apply kinds_track; [exact Hm | now right].
Qed.

Lemma kinds_load_items items :
  forall self : TorrentEngine W H,
    kinds_known (_meta self) ->
    kinds_known (_meta (snd (load_items lt items self))).
Proof.
  induction items as [|item rest IH]; intros self Hm; cbn [load_items];
    [exact Hm|].
  destruct (get item "kind" JNull) as [k|]; [|exact Hm].
  destruct (get item "source" JNull) as [s|]; [|exact Hm].
  destruct (negb (truthy k) || negb (truthy s)); [now apply IH|].
  destruct (eq_str k "file"); [now apply IH, kinds_add_torrent_file|].
  destruct (eq_str k "magnet"); [now apply IH, kinds_add_magnet|].
  now apply IH.
Qed.

(** X20.  In every state the object can reach, every descriptor is of kind
    "file" or "magnet": whatever the state files held, nothing else is
    ever recorded. *)
Theorem descriptor_kinds_are_known (self : TorrentEngine W H) :
  reachable lt self -> kinds_known (_meta self).
Proof.
  intros Hr.
  induction Hr as [path w d|c self Hr IH|path w d self Hr IH].
  - unfold __init__, _load_state. cbn [files].
    destruct (if is_None (read_current d) && exists_ (legacy_file d)
              then migrate d else (read_current d, d)) as [data d'].
    destruct (negb (truthy data)); [constructor|].
    destruct (get data "torrents" (JArr [])) as [torrents|]; [|constructor].
    destruct (iter torrents) as [items|]; [|constructor].
    apply kinds_load_items. constructor.
  - destruct c; cbn [run].
    + now apply kinds_add_torrent_file.
    + now apply kinds_add_magnet.
    + destruct (status_query_keeps_meta lt self) as [-> _]. exact IH.
    + unfold pause. destruct (dict_get torrent_id (_torrents self)); exact IH.
    + unfold resume.
      destruct (dict_get torrent_id (_torrents self)); exact IH.
    + destruct (remove_detaches lt self torrent_id delete_files)
        as (_ & _ & -> & _).
      now apply kinds_known_pop.
    + exact IH.
  - exact IH.
Qed.

End Kinds.

Lemma descriptor_kinds_are_known_witness :
  kinds_known (_meta Scenario.added_file).
Proof.
  apply (descriptor_kinds_are_known Stub.engine).
  exact (reach_call Stub.engine _ _
           (reach_init Stub.engine Scenario.path ["/a.torrent"]
                       Stub.empty_disk)).
Defined.

(* ================================================================== *)
(** * Inspecting a torrent file *)

Lemma fold_left_append_map {A B} (g : A -> B) (l : list A) (acc : list B) :
  fold_left (fun acc i => (acc ++ [g i])%list) l acc = (acc ++ map g l)%list.
Proof.
  revert acc. induction l as [|a l IH]; intros acc; simpl.
  - now rewrite app_nil_r.
  - rewrite IH, <- app_assoc. reflexivity.
Qed.

Lemma map_nth_seq {A B} (g : A -> B) (l : list A) (d : A) :
  map (fun i => g (nth i l d)) (seq 0 (List.length l)) = map g l.
Proof.
  induction l as [|a l IH]; [reflexivity|].
  cbn [List.length seq map nth]. f_equal.
  rewrite <- seq_shift, map_map. exact IH.
Qed.

Lemma file_list_map (info : Lt.torrent_info) :
  file_list info =
  map (fun f => JObj [("path", JStr (fst f)); ("size", JInt (snd f))])
      (Lt.ti_files info).
Proof.
  unfold file_list, Lt.num_files, file_path, Lt.file_size.
  rewrite fold_left_append_map. cbn [app].
  apply (map_nth_seq
           (fun f => JObj [("path", JStr (fst f)); ("size", JInt (snd f))])).
Qed.

Section InspectFacts.
Context {W H : Type}.
Variable lt : Lt.engine W H.

(** X21.  [inspect_torrent_file] never changes the object.  It raises what
    reading the torrent file raises; otherwise it returns the name of the
    torrent and one entry per file, in index order, with the path and the
    size of that file. *)
Theorem inspect_lists_every_file (self : TorrentEngine W H) p :
  snd (inspect_torrent_file lt p self) = self /\
  (forall e, Lt.load_torrent_info lt (_session self) p = Raise e ->
             fst (inspect_torrent_file lt p self) = Raise e) /\
  (forall info,
      Lt.load_torrent_info lt (_session self) p = Ok info ->
      fst (inspect_torrent_file lt p self) =
        Ok (JObj [("name", JStr (Lt.ti_name info));
                  ("files",
                   JArr (map (fun f => JObj [("path", JStr (fst f));
                                             ("size", JInt (snd f))])
                             (Lt.ti_files info)))])).
Proof.
  unfold inspect_torrent_file.
  destruct (Lt.load_torrent_info lt (_session self) p) as [info|e];
    cbn [fst snd].
  - split; [reflexivity|]. split; [discriminate|].
    intros info' E. inversion E; subst. now rewrite file_list_map.
  - split; [reflexivity|]. split; [|discriminate].
    intros e' E. inversion E; subst. reflexivity.
Qed.

End InspectFacts.

Lemma inspect_lists_every_file_witness :
  fst (inspect_torrent_file Stub.engine (JStr "/a.torrent")
         Scenario.added_file)
  = Ok (JObj [("name", JStr "/a.torrent");
              ("files",
               JArr [JObj [("path", JStr "a.bin"); ("size", JInt 700)];
                     JObj [("path", JStr "b.bin"); ("size", JInt 300)]])]).
Proof.
  rewrite (proj2 (proj2 (inspect_lists_every_file Stub.engine
                           Scenario.added_file (JStr "/a.torrent")))
             (Stub.info_of "/a.torrent") eq_refl).
  reflexivity.
Defined.

(* ================================================================== *)
(** * Bounds on the effective total size *)

Lemma selected_size_le_all priorities (fs : list (string * Z)) :
  Forall (fun f => 0 <= snd f) fs ->
  0 <= sumZ (map (fun pf => snd (snd pf))
                 (filter (fun pf : Z * (string * Z) => fst pf >? 0)
                         (combine priorities fs)))
    <= sumZ (map snd fs).
Proof.
  revert priorities.
  induction fs as [|f fs IH]; intros priorities Hnn.
  - destruct priorities; simpl; lia.
  - inversion Hnn; subst. destruct priorities as [|p ps]; simpl.
    + specialize (IH [] H2). simpl in IH.
      assert (0 <= sumZ (map snd fs)) by (destruct fs; simpl in *; lia).
      lia.
    + specialize (IH ps H2). destruct (p >? 0); simpl; lia.
Qed.

Lemma selected_size_all_wanted priorities (fs : list (string * Z)) :
  List.length priorities = List.length fs ->
  Forall (fun p => 0 < p) priorities ->
  sumZ (map (fun pf => snd (snd pf))
            (filter (fun pf : Z * (string * Z) => fst pf >? 0)
                    (combine priorities fs)))
  = sumZ (map snd fs).
Proof.
  revert fs. induction priorities as [|p ps IH]; intros [|f fs] Hlen Hall;
    simpl in Hlen; try discriminate; [reflexivity|].
  inversion Hall; subst. injection Hlen as Hlen. simpl.
  destruct (Z.gtb_spec p 0); [|lia]. simpl. now rewrite IH.
Qed.

(** X22.  The total size of a status record is the wanted total the engine
    reports, or else a positive sum over files of the torrent; with file
    sizes that are not negative that sum is at most the size of the whole
    torrent, and it is the size of the whole torrent when every file has
    a priority greater than zero. *)
Theorem snapshot_total_size_bounds tid s info prios snap :
  reconcile tid s info prios = Ok snap ->
  (snap_total_size snap = getattr (Lt.total_wanted s) 0 \/
   0 < snap_total_size snap /\
   exists ti, info = Some ti /\
     (Forall (fun f => 0 <= snd f) (Lt.ti_files ti) ->
      snap_total_size snap <= sumZ (map snd (Lt.ti_files ti)))) /\
  (forall ti priorities,
      info = Some ti -> prios = Some priorities ->
      List.length priorities = Lt.num_files ti ->
      Forall (fun p => 0 < p) priorities ->
      0 < sumZ (map snd (Lt.ti_files ti)) ->
      snap_total_size snap = sumZ (map snd (Lt.ti_files ti))).
Proof.
  intros Hr. apply reconcile_fields in Hr as (_ & _ & -> & _).
  rewrite effective_total_size_refines. unfold effective_total_size_spec.
  split.
  - destruct info as [ti|]; [|now left].
    destruct prios as [priorities|]; [|now left].
    destruct (Nat.eqb _ _); cbn [andb]; [|now left].
    destruct (Z.gtb_spec (selected_size priorities ti) 0) as [Hpos|Hpos];
      [|now left].
    right. split; [lia|]. exists ti. split; [reflexivity|].
    intros Hnn. now apply selected_size_le_all.
  - intros ti priorities -> -> Hlen Hall Hpos.
    apply Nat.eqb_eq in Hlen. rewrite Hlen. cbn [andb].
    unfold selected_size.
    rewrite selected_size_all_wanted;
      [|now apply Nat.eqb_eq in Hlen | exact Hall].
    destruct (Z.gtb_spec (sumZ (map snd (Lt.ti_files ti))) 0); [reflexivity|lia].
Qed.

Lemma snapshot_total_size_bounds_witness :
  exists snap,
    reconcile "t" Stub.slow_download (Some (Stub.info_of "/a.torrent"))
              (Some [1; 7]) = Ok snap /\
    snap_total_size snap = 1000.
Proof.
  eexists. split; [reflexivity|].
  apply (proj2 (snapshot_total_size_bounds "t" Stub.slow_download
                  (Some (Stub.info_of "/a.torrent")) (Some [1; 7]) _ eq_refl)
           (Stub.info_of "/a.torrent") [1; 7]); try reflexivity.
  repeat constructor.
Defined.

(* ================================================================== *)
(** * [main.py]: the ETA text *)

Section MainFacts.
Import Main.

Lemma length_append (a b : string) :
  String.length (a ++ b) = (String.length a + String.length b)%nat.
Proof. induction a as [|c a IH]; simpl; [reflexivity | now rewrite IH]. Qed.

Lemma append_inj_len (a a' b b' : string) :
  String.length a = String.length a' ->
  (a ++ b)%string = (a' ++ b')%string -> a = a' /\ b = b'.
Proof.
  revert a'. induction a as [|c a IH]; intros [|c' a'] Hlen Heq;
    simpl in *; try discriminate.
  - auto.
  - injection Hlen as Hlen. injection Heq as Hc Heq.
    destruct (IH a' Hlen Heq) as [-> ->]. subst. auto.
Qed.

Lemma length_zfill w s :
  String.length (zfill w s) = Nat.max w (String.length s).
Proof.
  revert s. induction w as [|w IH]; intros s.
  - reflexivity.
  - cbn [zfill]. destruct (Nat.sub (S w) (String.length s)) eqn:Hd.
    + lia.
    + cbn [String.length]. rewrite IH. lia.
Qed.

Lemma digits_value_zfill w s :
  digits_value (zfill w s) = digits_value s.
Proof.
  induction w as [|w IH]; [reflexivity|].
  cbn [zfill]. destruct (Nat.sub (S w) (String.length s)); [reflexivity|].
  rewrite <- IH. unfold digits_value. cbn [NilEmpty.uint_of_string].
  destruct (NilEmpty.uint_of_string (zfill w s)); reflexivity.
Qed.

Lemma digits_value_str n : 0 <= n -> digits_value (str n) = Some n.
Proof.
  intros Hn. unfold str, digits_value.
  destruct n as [|p|p]; [reflexivity| |lia].
  cbn [Z.to_int NilZero.string_of_int].
  pose proof (DecimalPos.Unsigned.to_uint_nonnil p) as Hnil.
  pose proof (DecimalPos.Unsigned.of_to p) as Hof.
  assert (Hs : NilZero.string_of_uint (Pos.to_uint p)
               = NilEmpty.string_of_uint (Pos.to_uint p))
    by (destruct (Pos.to_uint p); [contradiction | reflexivity ..]).
  rewrite Hs, NilEmpty.usu. cbn [option_map]. unfold N.of_uint.
  now rewrite Hof.
Qed.

Lemma format_02d_value n : 0 <= n -> digits_value (format_02d n) = Some n.
Proof.
  intros Hn. unfold format_02d.
  destruct (Z.ltb_spec n 0); [lia|].
  rewrite digits_value_zfill. now apply digits_value_str.
Qed.

Lemma format_02d_inj a b :
  0 <= a -> 0 <= b -> format_02d a = format_02d b -> a = b.
Proof.
  intros Ha Hb Heq.
  pose proof (format_02d_value a Ha) as Va.
  rewrite Heq, (format_02d_value b Hb) in Va. congruence.
Qed.

Lemma format_02d_length_ge n : 0 <= n -> (2 <= String.length (format_02d n))%nat.
Proof.
  intros Hn. unfold format_02d. destruct (Z.ltb_spec n 0); [lia|].
  rewrite length_zfill. lia.
Qed.

Lemma format_02d_length_small n :
  0 <= n < 60 -> String.length (format_02d n) = 2%nat.
Proof.
  intros Hn. rewrite <- (Z2Nat.id n) by lia.
  assert (Hlt : (Z.to_nat n < 60)%nat) by lia.
  generalize dependent (Z.to_nat n). clear. intros k Hk.
  do 60 (destruct k as [|k]; [reflexivity|]). lia.
Qed.

(** The parts [human_eta] prints for a number of seconds in range. *)
Lemma human_eta_parts n :
  0 <= n <= 31536000 ->
  let h := n / 60 / 60 in
  let m := (n / 60) mod 60 in
  let s := n mod 60 in
  0 <= h /\ 0 <= m < 60 /\ 0 <= s < 60 /\ n = 3600 * h + 60 * m + s /\
  human_eta n =
    (if h >? 0
     then format_02d h ++ ":" ++ format_02d m ++ ":" ++ format_02d s
     else format_02d m ++ ":" ++ format_02d s)%string.
Proof.
  intros Hn h m s.
  assert (Hm : 0 <= n / 60) by (apply Z.div_pos; lia).
  assert (Hh : 0 <= h) by (apply Z.div_pos; lia).
  pose proof (Z.mod_pos_bound (n / 60) 60 ltac:(lia)).
  pose proof (Z.mod_pos_bound n 60 ltac:(lia)).
  pose proof (Z.div_mod n 60 ltac:(lia)).
  pose proof (Z.div_mod (n / 60) 60 ltac:(lia)).
  repeat split; try lia.
  unfold human_eta.
  change (365 * 24 * 3600) with 31536000.
  destruct (Z.ltb_spec n 0); [lia|].
  destruct (Z.gtb_spec n 31536000); [lia|]. reflexivity.
Qed.

Lemma suffix_length m s :
  0 <= m < 60 -> 0 <= s < 60 ->
  String.length (format_02d m ++ ":" ++ format_02d s) = 5%nat.
Proof.
  intros Hm Hs.
  rewrite !length_append, !format_02d_length_small by assumption.
  reflexivity.
Qed.

Lemma length_colon (x : string) :
  String.length (":" ++ x) = S (String.length x).
Proof. reflexivity. Qed.

Lemma human_eta_length n :
  0 <= n <= 31536000 ->
  (if n / 60 / 60 >? 0
   then (8 <= String.length (human_eta n))%nat
   else String.length (human_eta n) = 5%nat).
Proof.
  intros Hn.
  destruct (human_eta_parts n Hn) as (Hh & Hm & Hs & _ & ->).
  destruct (n / 60 / 60 >? 0).
  - rewrite length_append, length_colon, suffix_length by assumption.
    pose proof (format_02d_length_ge _ Hh). lia.
  - now apply suffix_length.
Qed.

(** X23.  [human_eta] shows the dash exactly for a negative number of
    seconds or one above a year (365 days); so the guard of the ETA cell
    is redundant: the cell is [human_eta] of the eta for every eta, and
    shows the dash when the eta is [-1]. *)
Theorem human_eta_dash_iff n :
  (human_eta n = dash <-> n < 0 \/ 31536000 < n) /\
  eta_cell n = human_eta n.
Proof.
  assert (Hout : n < 0 \/ 31536000 < n -> human_eta n = dash).
  { intros Hn. unfold human_eta.
    change (365 * 24 * 3600) with 31536000.
    destruct (Z.ltb_spec n 0); [reflexivity|].
    destruct (Z.gtb_spec n 31536000); [reflexivity|lia]. }
  split.
  - split; [|exact Hout].
    intros Hd.
    destruct (Z_lt_le_dec n 0) as [|H0]; [now left|].
    destruct (Z_lt_le_dec 31536000 n) as [|H1]; [now right|].
    exfalso. pose proof (human_eta_length n (conj H0 H1)) as Hlen.
    rewrite Hd in Hlen. cbn in Hlen.
    destruct (n / 60 / 60 >? 0); [lia | discriminate].
  - unfold eta_cell. destruct (Z.geb_spec n 0); [reflexivity|].
    symmetry. apply Hout. lia.
Qed.

(** X24.  Within a year, different numbers of seconds read differently:
    for [a] and [b] in [0, 365 days] with [a <> b], [human_eta a] and
    [human_eta b] are different texts. *)
Theorem human_eta_injective a b :
  0 <= a <= 31536000 -> 0 <= b <= 31536000 ->
  a <> b -> human_eta a <> human_eta b.
Proof.
  intros Ha Hb Hne Heq. apply Hne.
  pose proof (human_eta_length a Ha) as La.
  pose proof (human_eta_length b Hb) as Lb.
  destruct (human_eta_parts a Ha) as (Hha & Hma & Hsa & Ea & Pa).
  destruct (human_eta_parts b Hb) as (Hhb & Hmb & Hsb & Eb & Pb).
  rewrite Heq in La.
  assert (Hsuffix : forall m s m' s',
            0 <= m < 60 -> 0 <= s < 60 -> 0 <= m' < 60 -> 0 <= s' < 60 ->
            (format_02d m ++ ":" ++ format_02d s
             = format_02d m' ++ ":" ++ format_02d s')%string ->
            m = m' /\ s = s').
  { intros m s m' s' Hm Hs Hm' Hs' E.
    apply append_inj_len in E as [Em E];
      [|now rewrite !format_02d_length_small].
    injection E as Es.
    split; apply format_02d_inj; auto; lia. }
  rewrite Pa, Pb in Heq.
  destruct (a / 60 / 60 >? 0) eqn:Ga; destruct (b / 60 / 60 >? 0) eqn:Gb;
    try lia.
  - assert (Hlen : String.length (format_02d (a / 60 / 60))
                   = String.length (format_02d (b / 60 / 60))).
    { apply (f_equal String.length) in Heq.
      rewrite (length_append (format_02d (a / 60 / 60))),
        (length_append (format_02d (b / 60 / 60))),
        !length_colon, !suffix_length in Heq by assumption. lia. }
    apply append_inj_len in Heq as [Eh Heq]; [|exact Hlen].
    injection Heq as Heq.
    apply Hsuffix in Heq as [Em Es]; try assumption.
    apply format_02d_inj in Eh; try assumption. lia.
  - apply Hsuffix in Heq as [Em Es]; try assumption.
    rewrite Z.gtb_ltb in Ga, Gb. apply Z.ltb_ge in Ga, Gb. lia.
Qed.

Lemma human_eta_injective_witness :
  human_eta 3599 = "59:59" /\ human_eta 3600 = "01:00:00" /\
  human_eta 3599 <> human_eta 3600.
Proof.
  split; [reflexivity|]. split; [reflexivity|].
  apply (human_eta_injective 3599 3600); lia.
Defined.

End MainFacts.
